(** * Speech-to-text dataset pipeline: quality filter, dataset builder, versioning

    A shallow embedding of the decision logic of the pipeline
    ([filter_quality.py], [create_dataset.py], [run_pipeline.py] and the
    naming rule of [preprocess.py]) together with the properties the
    specification states about it.

    Conventions of the embedding.
    - A Python [str] is a [string]; a character is its code point, in the
      range 0..255 that [ascii] offers.  The whitespace and case tables below
      are Python's for that range.
    - A Python number read from a record is a rational [Q]: every finite float
      denotes one, and [<], [>] on finite floats and ints compare exactly these
      values.  A float literal of the source stands for the double it denotes
      ([double_0_3] for [0.3]).  An arithmetic operation on floats gives the
      double nearest to the exact result ([round64]).  The non-finite floats
      are outside the record types of the pipeline (a confidence lies in
      [0,1], a duration is [len(audio) / sr]).  Counters and word counts are
      [nat] and [Z].
    - The records that travel between the stages are Python dicts with
      optional keys.  [Dict.t] has one optional, typed field per key that the
      stages write; [d.get(k, dflt)] is [default dflt (k d)], [d[k]] raises
      [KeyError] on an absent key, and [{}] is [Dict.empty].
    - A reason message is kept as its kind together with the values that the
      f-string interpolates, not as formatted text. *)

From Stdlib Require Import QArith ZArith Ascii String Sorted Permutation.
From Stdlib Require Import DecimalString DecimalZ Lqa.
From stdpp Require Import gmap strings list.

(** ** Characters and strings *)

Module Str.

Definition code (c : ascii) : N := N_of_ascii c.

Definition between (lo hi n : N) : bool := ((lo <=? n) && (n <=? hi))%N.

(** [str.isspace] on one character: TAB..CR, FS..US, SPACE, NEL, NBSP. *)
Definition isspace (c : ascii) : bool :=
  let n := code c in
  between 9 13 n || between 28 32 n || (n =? 133)%N || (n =? 160)%N.

(** The character class [[a-zA-Z]] of [re]. *)
Definition is_ascii_letter (c : ascii) : bool :=
  let n := code c in between 65 90 n || between 97 122 n.

Definition is_upper (c : ascii) : bool :=
  let n := code c in
  between 65 90 n || (between 192 222 n && negb (n =? 215)%N).

Definition lower_char (c : ascii) : ascii :=
  if is_upper c then ascii_of_N (code c + 32) else c.

(** [s.lower()] *)
Fixpoint lower (s : string) : string :=
  match s with
  | EmptyString => EmptyString
  | String c s' => String (lower_char c) (lower s')
  end.

(** Stripping with respect to a class [sp] of characters. *)
Fixpoint lstrip (sp : ascii -> bool) (s : string) : string :=
  match s with
  | EmptyString => EmptyString
  | String c s' => if sp c then lstrip sp s' else s
  end.

Definition is_empty (s : string) : bool :=
  match s with EmptyString => true | _ => false end.

Fixpoint rstrip (sp : ascii -> bool) (s : string) : string :=
  match s with
  | EmptyString => EmptyString
  | String c s' =>
      let r := rstrip sp s' in
      if sp c && is_empty r then EmptyString else String c r
  end.

(** [s.strip()] *)
Definition strip (s : string) : string := lstrip isspace (rstrip isspace s).

(** [s.split()]: the maximal runs of non-whitespace characters, in order.
    [cur] is the run being read. *)
Fixpoint split_from (cur : string) (s : string) : list string :=
  match s with
  | EmptyString => if is_empty cur then [] else [cur]
  | String c s' =>
      if isspace c
      then (if is_empty cur then split_from EmptyString s'
            else cur :: split_from EmptyString s')
      else split_from (String.append cur (String c EmptyString)) s'
  end.

Definition split (s : string) : list string := split_from EmptyString s.

(** [re.search(r'[a-zA-Z]', s)] as a truth value. *)
Fixpoint has_ascii_letter (s : string) : bool :=
  match s with
  | EmptyString => false
  | String c s' => is_ascii_letter c || has_ascii_letter s'
  end.

(** [s.startswith(p)] *)
Fixpoint startswith (p s : string) : bool :=
  match p, s with
  | EmptyString, _ => true
  | String a p', String b s' => (code a =? code b)%N && startswith p' s'
  | String _ _, EmptyString => false
  end.

(** [s.replace(p, '')] for a non-empty [p]: the occurrences of [p] are
    removed left to right, without overlap.  [skip] counts the characters
    of the occurrence being removed that are still to be dropped. *)
Fixpoint remove_from (p : string) (skip : nat) (s : string) : string :=
  match s with
  | EmptyString => EmptyString
  | String c s' =>
      match skip with
      | S k => remove_from p k s'
      | O => if startswith p s
             then remove_from p (String.length p - 1) s'
             else String c (remove_from p O s')
      end
  end.

Definition remove_all (p s : string) : string := remove_from p O s.

Definition is_digit (c : ascii) : bool := between 48 57 (code c).

Definition digit_val (c : ascii) : Z := Z.of_N (code c) - 48.

(** The digits of a decimal literal after its first digit: a digit, or one
    underscore followed by a digit. *)
Fixpoint digits_from (acc : Z) (s : string) : option Z :=
  match s with
  | EmptyString => Some acc
  | String c s' =>
      if is_digit c then digits_from (10 * acc + digit_val c) s'
      else if (code c =? 95)%N then
        match s' with
        | String d s'' =>
            if is_digit d then digits_from (10 * acc + digit_val d) s''
            else None
        | EmptyString => None
        end
      else None
  end.

Definition digits (s : string) : option Z :=
  match s with
  | String c s' => if is_digit c then digits_from (digit_val c) s' else None
  | EmptyString => None
  end.

(** The whitespace that [int] drops around a literal: the C [isspace]
    characters below 128, and the [str.isspace] characters from 128 on. *)
Definition is_int_space (c : ascii) : bool :=
  let n := code c in
  between 9 13 n || (n =? 32)%N || (n =? 133)%N || (n =? 160)%N.

(** [int(s)] for a [str]: surrounding whitespace is dropped, one sign is
    allowed, the digits are decimal.  [None] is [ValueError].  (The
    interpreter also refuses literals of more than 4300 digits; a directory
    name is far shorter.) *)
Definition int (s : string) : option Z :=
  match lstrip is_int_space (rstrip is_int_space s) with
  | String c s' =>
      if (code c =? 45)%N then Z.opp <$> digits s'
      else if (code c =? 43)%N then digits s'
      else digits (String c s')
  | EmptyString => None
  end.

(** [Path(name).stem] for a path of one component, a file name: the suffix
    starts at the last dot, unless that dot is the first or the last
    character of the name (as [pathlib] has it up to Python 3.13). *)
Fixpoint rfind_dot (i : nat) (s : string) : option nat :=
  match s with
  | EmptyString => None
  | String c s' =>
      match rfind_dot (S i) s' with
      | Some j => Some j
      | None => if (code c =? 46)%N then Some i else None
      end
  end.

Fixpoint take (n : nat) (s : string) : string :=
  match n, s with
  | S k, String c s' => String c (take k s')
  | _, _ => EmptyString
  end.

Definition stem (name : string) : string :=
  match rfind_dot 0 name with
  | Some i =>
      if (0 <? i)%nat && (i <? String.length name - 1)%nat
      then take i name else name
  | None => name
  end.

End Str.

(** ** Numbers *)

Definition Qltb (x y : Q) : bool := negb (Qle_bool y x).

(** [u / n] for two positive [int]s, at its exact value.  The source compares
    the correctly rounded quotient with the double [0.3]; for fewer than
    [2^50] tokens that holds exactly when the exact quotient is below 3/10,
    which is what [filter_by_transcription_quality] tests below. *)
Definition ratio (u n : nat) : Q := Z.of_nat u # Pos.of_nat n.

(** The doubles denoted by the literals [0.3] and [0.1]. *)
Definition double_0_3 : Q := 5404319552844595 # 18014398509481984.
Definition double_0_1 : Q := 3602879701896397 # 36028797018963968.

(** *** Float arithmetic

    An arithmetic operation on two floats gives the double nearest to the
    exact result, a tie going to the double with an even significand.  The
    doubles are counted here in units of [2^-1074], the smallest positive
    one: up to [2^53] units every whole number of units is a double, and
    above that the doubles are [2^s] units apart, [s] growing by one each
    time the number of units doubles. *)

(** The integer nearest to [N / D] for [0 < D], a tie going to the even
    one. *)
Definition round_half_even (N D : Z) : Z :=
  let q := (N / D)%Z in
  let r := (N mod D)%Z in
  if (2 * r <? D)%Z then q
  else if (D <? 2 * r)%Z then (q + 1)%Z
  else if Z.even q then q else (q + 1)%Z.

Definition double_unit : positive := (2 ^ 1074)%positive.

(** The largest double, [(2^53 - 1) * 2^971], in units. *)
Definition max_double_units : Z := ((2 ^ 53 - 1) * 2 ^ 2045)%Z.

(** The double nearest to [n / d], in units: [t] is the number of whole
    units in [n / d] and [2^s] the distance between the doubles around it. *)
Definition round64_units (n d : positive) : Z :=
  let N := (Z.pos n * Z.pos double_unit)%Z in
  let t := (N / Z.pos d)%Z in
  let s := Z.max (Z.log2 t - 52) 0 in
  (round_half_even N (Z.pos d * 2 ^ s) * 2 ^ s)%Z.

(** The double nearest to [q].  Beyond the largest double a float operation
    gives an infinity, which the numbers of this embedding do not have (see
    the conventions above); [round64] stops at the largest double there. *)
Definition round64 (q : Q) : Q :=
  match Qnum q with
  | Z0 => 0%Q
  | Zpos n =>
      Z.min (round64_units n (Qden q)) max_double_units # double_unit
  | Zneg n =>
      (- Z.min (round64_units n (Qden q)) max_double_units)%Z # double_unit
  end.

(** A rational that is the value of a double. *)
Definition is_double (q : Q) : Prop := (round64 q == q)%Q.

(** [x + y], [x - y] and [x / y] on floats. *)
Definition float_add (x y : Q) : Q := round64 (x + y).
Definition float_sub (x y : Q) : Q := round64 (x - y).
Definition float_div (x y : Q) : Q := round64 (x / y).

(** [sum(l)] as the interpreter computes it up to version 3.11: from 0 and
    left to right, every addition rounded.  (From 3.12 on the built-in adds
    floats with a compensation of the rounding errors, which can change the
    last bit of the result.) *)
Definition sequential_sum (l : list Q) : Q := foldl float_add 0%Q l.

(** The doubles denoted by [10.1] and [9.799999999999999]. *)
Definition double_10_1 : Q := 5685794529555251 # 562949953421312.
Definition double_9_799999999999999 : Q :=
  5516909543528857 # 562949953421312.

(** ** Records and errors *)

Module Dict.

(** One optional field per key written by [preprocess_audio_file],
    [preprocess_audio_batch], [transcribe_audio] and [transcribe_batch]. *)
Record t := mk {
  success : option bool;
  error : option string;
  original_duration : option Q;
  final_duration : option Q;
  sample_rate : option Z;
  output_path : option string;
  input_file : option string;
  output_file : option string;
  text : option string;
  language : option string;
  confidence : option Q;
  word_count : option Z;
  segments : option Z;
  filename : option string;
  audio_path : option string
}.

(** [{}] *)
Definition empty : t :=
  mk None None None None None None None None None None None None None None None.

Definition absent {A} (field : option A) : bool :=
  match field with
  | None => true
  | Some _ => false
  end.

(** The truth value of a dict is [false] exactly for [{}]: [is_empty d] is
    [not d]. *)
Definition is_empty (d : t) : bool :=
  absent (success d) && absent (error d) && absent (original_duration d)
  && absent (final_duration d) && absent (sample_rate d)
  && absent (output_path d) && absent (input_file d) && absent (output_file d)
  && absent (text d) && absent (language d) && absent (confidence d)
  && absent (word_count d) && absent (segments d) && absent (filename d)
  && absent (audio_path d).

End Dict.

Inductive exn :=
| KeyError (key : string)
| NotADirectoryError.

Inductive result (A : Type) :=
| Ok (a : A)
| Raise (e : exn).
Arguments Ok {A} a.
Arguments Raise {A} e.

#[global] Instance result_ret : MRet result := fun A a => Ok a.
#[global] Instance result_bind : MBind result := fun A B f m =>
  match m with
  | Ok a => f a
  | Raise e => Raise e
  end.

(** [d[k]] *)
Definition item {A} (key : string) (field : option A) : result A :=
  match field with
  | Some v => Ok v
  | None => Raise (KeyError key)
  end.

(** The two-element tuple's second component: which message, with the values
    it prints. *)
Inductive reason :=
| TooShort (duration min_duration : Q)
| TooLong (duration max_duration : Q)
| DurationOK
| TranscriptionFailed (err : string)
| EmptyTranscription
| LowConfidence (confidence min_confidence : Q)
| TooFewWords (word_count min_words : Z)
| NoAlphabetic
| ExcessiveRepetition (unique_ratio : Q)
| QualityOK.

Module Sample.
(** An element of [filtered_samples]. *)
Record t := mk {
  filename : string;
  preprocessing : Dict.t;
  transcription : Dict.t;
  status : string
}.
End Sample.

Module Report.
(** [filter_report]; an element of [reasons] is a failed filename with its
    reasons. *)
Record t := mk {
  total : nat;
  passed : nat;
  failed_duration : nat;
  failed_quality : nat;
  failed_both : nat;
  reasons : list (string * list reason)
}.
End Report.

Module Row.
(** One row of the dataset frame. *)
Record t := mk {
  sample_id : string;
  filename : string;
  audio_path : string;
  transcription : string;
  duration_seconds : Q;
  sample_rate : Z;
  language : string;
  confidence : Q;
  word_count : Z;
  segments : Z;
  original_duration : Q;
  trimmed_duration : Q
}.
End Row.

(** ** filter_quality.py *)

Definition filter_by_duration (sample : Dict.t) (min_duration max_duration : Q)
  : bool * reason :=
  let duration := default 0%Q (Dict.final_duration sample) in
  if Qltb duration min_duration then (false, TooShort duration min_duration)
  else if Qltb max_duration duration then (false, TooLong duration max_duration)
  else (true, DurationOK).

Definition filter_by_transcription_quality
    (sample : Dict.t) (min_confidence : Q) (min_words : Z) : bool * reason :=
  let text := Str.strip (default "" (Dict.text sample)) in
  let confidence := default 0%Q (Dict.confidence sample) in
  let word_count := default 0%Z (Dict.word_count sample) in
  if negb (default false (Dict.success sample)) then
    (false, TranscriptionFailed (default "Unknown error" (Dict.error sample)))
  else if Str.is_empty text then (false, EmptyTranscription)
  else if Qltb confidence min_confidence then
    (false, LowConfidence confidence min_confidence)
  else if (word_count <? min_words)%Z then
    (false, TooFewWords word_count min_words)
  else if negb (Str.has_ascii_letter text) then (false, NoAlphabetic)
  else
    let words := Str.split (Str.lower text) in
    if (0 <? length words)%nat then
      let unique_ratio :=
        ratio (size (list_to_set words : gset string)) (length words) in
      if Qltb unique_ratio (3 # 10) && (5 <? length words)%nat then
        (false, ExcessiveRepetition unique_ratio)
      else (true, QualityOK)
    else (true, QualityOK).

(** The dict comprehensions of [apply_filters].  Records are visited in list
    order, a later record replaces an earlier one under the same key. *)
Fixpoint preprocess_dict_from (acc : gmap string Dict.t) (rs : list Dict.t)
  : result (gmap string Dict.t) :=
  match rs with
  | [] => Ok acc
  | r :: rs' =>
      if default false (Dict.success r) then
        f ← item "output_file" (Dict.output_file r);
        preprocess_dict_from (<[Str.lower f := r]> acc) rs'
      else preprocess_dict_from acc rs'
  end.

Definition preprocess_dict (preprocess_results : list Dict.t) :=
  preprocess_dict_from ∅ preprocess_results.

Fixpoint transcribe_dict_from (acc : gmap string Dict.t) (rs : list Dict.t)
  : result (gmap string Dict.t) :=
  match rs with
  | [] => Ok acc
  | r :: rs' =>
      f ← item "filename" (Dict.filename r);
      transcribe_dict_from (<[Str.lower f := r]> acc) rs'
  end.

Definition transcribe_dict (transcription_results : list Dict.t) :=
  transcribe_dict_from ∅ transcription_results.

(** The thresholds of one call. *)
Record thresholds := {
  min_duration : Q;
  max_duration : Q;
  min_confidence : Q;
  min_words : Z
}.

Definition default_thresholds : thresholds :=
  {| min_duration := 2; max_duration := 300;
     min_confidence := double_0_3; min_words := 3 |}.

(** The records joined to a candidate by the two [.get(sample_lower, {})]. *)
Definition joined (pd td : gmap string Dict.t) (sample : string)
  : Dict.t * Dict.t :=
  let sample_lower := Str.lower sample in
  (default Dict.empty (pd !! sample_lower),
   default Dict.empty (td !! sample_lower)).

(** The body of the loop over [samples] after the two lookups, on the pair
    [(filtered_samples, filter_report)]. *)
Definition record_verdict (th : thresholds) (st : list Sample.t * Report.t)
    (sample : string) (preproc transcr : Dict.t) : list Sample.t * Report.t :=
  let '(filtered_samples, filter_report) := st in
  if Dict.is_empty transcr then st
  else
    let '(duration_pass, duration_reason) :=
      filter_by_duration preproc (min_duration th) (max_duration th) in
    let '(quality_pass, quality_reason) :=
      filter_by_transcription_quality transcr (min_confidence th)
        (min_words th) in
    let 'Report.mk total passed failed_duration failed_quality failed_both
           reasons := filter_report in
    if duration_pass && quality_pass then
      (filtered_samples ++ [Sample.mk sample preproc transcr "passed"],
       Report.mk total (passed + 1) failed_duration failed_quality failed_both
         reasons)
    else
      let rs := (if duration_pass then [] else [duration_reason])
                ++ (if quality_pass then [] else [quality_reason]) in
      (filtered_samples,
       Report.mk total passed
         (if duration_pass then failed_duration else failed_duration + 1)
         (if quality_pass then failed_quality else failed_quality + 1)
         (if negb duration_pass && negb quality_pass
          then failed_both + 1 else failed_both)
         (reasons ++ [(sample, rs)])).

(** One iteration of the loop over [samples]. *)
Definition filter_step (pd td : gmap string Dict.t) (th : thresholds)
    (st : list Sample.t * Report.t) (sample : string)
  : list Sample.t * Report.t :=
  let '(preproc, transcr) := joined pd td sample in
  record_verdict th st sample preproc transcr.

Definition apply_filters (samples : list string)
    (preprocess_results transcription_results : list Dict.t) (th : thresholds)
  : result (list Sample.t * Report.t) :=
  let filter_report := Report.mk (length samples) 0 0 0 0 [] in
  pd ← preprocess_dict preprocess_results;
  td ← transcribe_dict transcription_results;
  Ok (foldl (filter_step pd td th) ([], filter_report) samples).

(** ** create_dataset.py *)

(** The record built for one filtered sample. *)
Definition dataset_record (sample : Sample.t) : Row.t :=
  let filename := Sample.filename sample in
  let preproc := Sample.preprocessing sample in
  let transcr := Sample.transcription sample in
  {| Row.sample_id := Str.stem filename;
     Row.filename := filename;
     Row.audio_path := default EmptyString (Dict.output_path preproc);
     Row.transcription := default EmptyString (Dict.text transcr);
     Row.duration_seconds := default 0%Q (Dict.final_duration preproc);
     Row.sample_rate := default 16000%Z (Dict.sample_rate preproc);
     Row.language := default "unknown" (Dict.language transcr);
     Row.confidence := default 0%Q (Dict.confidence transcr);
     Row.word_count := default 0%Z (Dict.word_count transcr);
     Row.segments := default 0%Z (Dict.segments transcr);
     Row.original_duration := default 0%Q (Dict.original_duration preproc);
     Row.trimmed_duration :=
       float_sub (default 0%Q (Dict.original_duration preproc))
         (default 0%Q (Dict.final_duration preproc)) |}.

(** [df.sort_values('sample_id')]: ascending in the code-point order of
    [str].  The properties below use only that the result is a rearrangement
    of the rows. *)
Fixpoint insert_row (r : Row.t) (rows : list Row.t) : list Row.t :=
  match rows with
  | [] => [r]
  | x :: rows' =>
      if String.leb (Row.sample_id r) (Row.sample_id x) then r :: rows
      else x :: insert_row r rows'
  end.

Definition sort_values (rows : list Row.t) : list Row.t :=
  foldr insert_row [] rows.

(** The frame returned by [create_dataset_metadata].  A frame made from an
    empty list has no column, and sorting it by ['sample_id'] raises
    [KeyError].  The statistics, pandas aggregates of the frame, are not
    modelled; [output_dir] is unused by the source and [version] only enters
    the statistics. *)
Definition create_dataset_metadata (filtered_samples : list Sample.t)
  : result (list Row.t) :=
  let dataset_records := map dataset_record filtered_samples in
  match dataset_records with
  | [] => Raise (KeyError "sample_id")
  | _ => Ok (sort_values dataset_records)
  end.

(** ** preprocess.py and transcribe.py: the record shapes *)

(** The success dict of [preprocess_audio_file]. *)
Definition preprocess_ok (original final : Q) (sr : Z) (output_path : string)
  : Dict.t :=
  Dict.mk (Some true) None (Some original) (Some final) (Some sr)
    (Some output_path) None None None None None None None None None.

(** The failure dict of [preprocess_audio_file]. *)
Definition preprocess_failed (err : string) : Dict.t :=
  Dict.mk (Some false) (Some err) None None None None None None None None None
    None None None None.

(** [f"{audio_file.stem}.wav"] *)
Definition output_file_name (audio_file : string) : string :=
  String.append (Str.stem audio_file) ".wav".

(** The two keys that [preprocess_audio_batch] adds to a result. *)
Definition name_result (audio_file : string) (r : Dict.t) : Dict.t :=
  let 'Dict.mk s e o f sr op _ _ t l c w sg fn ap := r in
  Dict.mk s e o f sr op (Some audio_file) (Some (output_file_name audio_file))
    t l c w sg fn ap.

(** The loop of [preprocess_audio_batch] over the names of the audio files
    found; [preprocess_audio_file] is the signal processing of one file. *)
Definition preprocess_audio_batch (preprocess_audio_file : string -> Dict.t)
    (audio_files : list string) : list Dict.t :=
  map (fun audio_file =>
         name_result audio_file (preprocess_audio_file audio_file))
    audio_files.

(** The success dict of [transcribe_audio], completed by [transcribe_batch]
    with the file name and path. *)
Definition transcribe_ok (audio_file audio_path text language : string)
    (confidence : Q) (segments : Z) : Dict.t :=
  let text := Str.strip text in
  Dict.mk (Some true) None None None None None None None (Some text)
    (Some language) (Some confidence)
    (Some (Z.of_nat (length (Str.split text)))) (Some segments)
    (Some audio_file) (Some audio_path).

(** ** run_pipeline.py *)

(** An item of [iterdir()]: its name and whether it is a directory. *)
Record dir_entry := { name : string; is_dir : bool }.

(** What [Path(output_dir)] denotes on disk. *)
Inductive path_state :=
| Missing
| RegularFile
| Directory (items : list dir_entry).

(** The body of the loop over [iterdir()]: the version that an item adds to
    [existing_versions], if any.  [None] is both a name that is skipped and a
    [ValueError] that is caught. *)
Definition parsed_version (item : dir_entry) : option Z :=
  if is_dir item && Str.startswith "dataset_v" (name item)
  then Str.int (Str.remove_all "dataset_v" (name item))
  else None.

Fixpoint scan_versions (items : list dir_entry) : list Z :=
  match items with
  | [] => []
  | item :: items' =>
      match parsed_version item with
      | Some version => version :: scan_versions items'
      | None => scan_versions items'
      end
  end.

(** [max(l)] for a non-empty list, read with its first element. *)
Definition list_max (x : Z) (l : list Z) : Z := foldl Z.max x l.

Definition get_next_version (output_dir : path_state) : result Z :=
  match output_dir with
  | Missing => Ok 1%Z
  | RegularFile => Raise NotADirectoryError
  | Directory items =>
      match scan_versions items with
      | [] => Ok 1%Z
      | v :: vs => Ok (list_max v vs + 1)%Z
      end
  end.

(** [successful_preprocess] of [run_pipeline]: [r['success']] is read with
    brackets. *)
Fixpoint successful_preprocess (preprocess_results : list Dict.t)
  : result (list Dict.t) :=
  match preprocess_results with
  | [] => Ok []
  | r :: rs =>
      s ← item "success" (Dict.success r);
      rest ← successful_preprocess rs;
      Ok (if s : bool then r :: rest else rest)
  end.

Fixpoint processed_files (successful : list Dict.t) : result (list string) :=
  match successful with
  | [] => Ok []
  | r :: rs =>
      f ← item "output_file" (Dict.output_file r);
      rest ← processed_files rs;
      Ok (f :: rest)
  end.

(** Stage 3 of [run_pipeline]: the candidates are the output names of the
    successful preprocessing results. *)
Definition filter_stage
    (preprocess_results transcription_results : list Dict.t) (th : thresholds)
  : result (list Sample.t * Report.t) :=
  successful ← successful_preprocess preprocess_results;
  files ← processed_files successful;
  apply_filters files preprocess_results transcription_results th.

(** ** Notions of the specification *)

(** Two characters that are equal or are the two cases of one letter. *)
Definition same_letter (c d : ascii) : bool :=
  Ascii.eqb c d
  || (Str.is_upper c && Ascii.eqb d (Str.lower_char c))
  || (Str.is_upper d && Ascii.eqb c (Str.lower_char d)).

(** Two names that differ at most in letter case. *)
Fixpoint differs_only_in_case (a b : string) : bool :=
  match a, b with
  | EmptyString, EmptyString => true
  | String c a', String d b' => same_letter c d && differs_only_in_case a' b'
  | _, _ => false
  end.

(** The join as the specification words it: among the records that are kept
    and whose name under [key] differs from the candidate at most in letter
    case, the one that comes last in the collection. *)
Fixpoint spec_latest (key : Dict.t -> option string) (keep : Dict.t -> bool)
    (sample : string) (rs : list Dict.t) : option Dict.t :=
  match rs with
  | [] => None
  | r :: rs' =>
      match spec_latest key keep sample rs' with
      | Some later => Some later
      | None =>
          match key r with
          | Some f =>
              if keep r && differs_only_in_case f sample then Some r else None
          | None => None
          end
      end
  end.

Definition succeeded (r : Dict.t) : bool := default false (Dict.success r).

Definition spec_joined (preprocess_results transcription_results : list Dict.t)
    (sample : string) : Dict.t * Dict.t :=
  (default Dict.empty
     (spec_latest Dict.output_file succeeded sample preprocess_results),
   default Dict.empty
     (spec_latest Dict.filename (fun _ => true) sample transcription_results)).

(** The loop of [apply_filters] with the join of the specification in place
    of the two lookups. *)
Definition spec_filter_step
    (preprocess_results transcription_results : list Dict.t) (th : thresholds)
    (st : list Sample.t * Report.t) (sample : string)
  : list Sample.t * Report.t :=
  let '(preproc, transcr) :=
    spec_joined preprocess_results transcription_results sample in
  record_verdict th st sample preproc transcr.

(** The conditions that the quality filter checks before the repetition
    check. *)
Definition earlier_checks_hold (sample : Dict.t) (min_confidence : Q)
    (min_words : Z) : Prop :=
  succeeded sample = true
  /\ Str.strip (default EmptyString (Dict.text sample)) <> EmptyString
  /\ (min_confidence <= default 0%Q (Dict.confidence sample))%Q
  /\ (min_words <= default 0%Z (Dict.word_count sample))%Z
  /\ Str.has_ascii_letter
       (Str.strip (default EmptyString (Dict.text sample))) = true.

(** The candidates that have a transcription record. *)
Definition transcribed (td : gmap string Dict.t) (samples : list string)
  : list string :=
  filter (fun sample => is_Some (td !! Str.lower sample)) samples.

(** What one iteration does to the counters; [n] is 1 when the candidate has
    a transcription record and 0 when it is skipped. *)
Definition counted (n : nat) (st st' : list Sample.t * Report.t) : Prop :=
  let r := st.2 in
  let r' := st'.2 in
  Report.total r' = Report.total r
  /\ Report.passed r' + length (Report.reasons r')
     = Report.passed r + length (Report.reasons r) + n
  /\ length st'.1 + Report.passed r = length st.1 + Report.passed r'
  /\ Report.failed_duration r' + Report.failed_quality r'
     + Report.failed_both r + length (Report.reasons r)
     = Report.failed_duration r + Report.failed_quality r
       + Report.failed_both r' + length (Report.reasons r')
  /\ Report.failed_both r' + Report.failed_duration r
     <= Report.failed_duration r' + Report.failed_both r
  /\ Report.failed_both r' + Report.failed_quality r
     <= Report.failed_quality r' + Report.failed_both r
  /\ Report.failed_both r <= Report.failed_both r'.

(** A sample that is returned was judged on the records joined to its name
    and passed both filters. *)
Definition passed_both (pd td : gmap string Dict.t) (th : thresholds)
    (x : Sample.t) : Prop :=
  (Sample.preprocessing x, Sample.transcription x)
  = joined pd td (Sample.filename x)
  /\ (filter_by_duration (Sample.preprocessing x)
        (min_duration th) (max_duration th)).1 = true
  /\ (filter_by_transcription_quality (Sample.transcription x)
        (min_confidence th) (min_words th)).1 = true.

(** The 256 characters. *)
Definition all_ascii : list ascii := map ascii_of_nat (seq 0 256).

(** ** Scenarios *)

(** Three transcribed files: the first with confidence 0.1, the second 500
    seconds long, the third within every threshold. *)
Definition scenario_pa : Dict.t :=
  name_result "a.mp3" (preprocess_ok 12 10 16000 "processed_audio/a.wav").
Definition scenario_pb : Dict.t :=
  name_result "b.mp3" (preprocess_ok 510 500 16000 "processed_audio/b.wav").
Definition scenario_pc : Dict.t :=
  name_result "c.mp3" (preprocess_ok 31 30 16000 "processed_audio/c.wav").

Definition scenario_ta : Dict.t :=
  transcribe_ok "a.wav" "processed_audio/a.wav" " what was that noise" "en"
    double_0_1 1.
Definition scenario_tb : Dict.t :=
  transcribe_ok "b.wav" "processed_audio/b.wav" " a long lecture about birds"
    "en" 0.875 40.
Definition scenario_tc : Dict.t :=
  transcribe_ok "c.wav" "processed_audio/c.wav" " good morning to everyone"
    "en" 0.75 1.

Definition scenario_preprocess : list Dict.t :=
  [scenario_pa; scenario_pb; scenario_pc].

Definition scenario_transcriptions : list Dict.t :=
  [scenario_ta; scenario_tb; scenario_tc].

(** A preprocessing record named ["Sample.wav"], transcribed under the name
    ["sample.wav"], next to an older record for the same name. *)
Definition case_preprocess : list Dict.t :=
  [ name_result "sample.mp3"
      (preprocess_ok 9 8 16000 "processed_audio/sample.wav");
    name_result "Sample.flac"
      (preprocess_ok 7 6 16000 "processed_audio/Sample.wav") ].

Definition case_transcriptions : list Dict.t :=
  [ transcribe_ok "sample.wav" "processed_audio/sample.wav" " one two three"
      "en" 0.75 1 ].

(** Two raw files with one stem: both are written to ["talk.wav"]. *)
Definition talk_preprocess : list Dict.t :=
  preprocess_audio_batch
    (fun _ => preprocess_ok 6 5 16000 "processed_audio/talk.wav")
    ["talk.mp3"; "talk.wav"].

Definition talk_transcriptions : list Dict.t :=
  [ transcribe_ok "talk.wav" "processed_audio/talk.wav"
      " let us talk about it" "en" 0.875 1 ].

(** What filtering returns for them: the candidate ["talk.wav"] twice, each
    time joined to the later of the two preprocessing records. *)
Definition talk_samples : list Sample.t :=
  let preproc :=
    name_result "talk.wav"
      (preprocess_ok 6 5 16000 "processed_audio/talk.wav") in
  let transcr :=
    transcribe_ok "talk.wav" "processed_audio/talk.wav" " let us talk about it"
      "en" 0.875 1 in
  [ Sample.mk "talk.wav" preproc transcr "passed";
    Sample.mk "talk.wav" preproc transcr "passed" ].

(** A file that was transcribed but whose preprocessing did not succeed. *)
Definition orphan_preprocess : list Dict.t :=
  [ name_result "lost.mp3" (preprocess_failed "decode error") ].

Definition orphan_transcriptions : list Dict.t :=
  [ transcribe_ok "lost.wav" "processed_audio/lost.wav"
      " still here somehow" "en" 0.875 1 ].

(** A record whose trimming lengthened the audio. *)
Definition stretched : Sample.t :=
  Sample.mk "odd.wav"
    (name_result "odd.mp3" (preprocess_ok 4 5 16000 "processed_audio/odd.wav"))
    (transcribe_ok "odd.wav" "processed_audio/odd.wav" " this is odd" "en"
       0.875 1)
    "passed".

(** A record whose durations are the doubles [10.1] and [0.3]. *)
Definition cut : Sample.t :=
  Sample.mk "cut.wav"
    (name_result "cut.mp3"
       (preprocess_ok double_10_1 double_0_3 16000 "processed_audio/cut.wav"))
    (transcribe_ok "cut.wav" "processed_audio/cut.wav" " this was cut" "en"
       0.875 1)
    "passed".

Definition version_dirs : list dir_entry :=
  [ {| name := "dataset_v1"; is_dir := true |};
    {| name := "dataset_v2"; is_dir := true |};
    {| name := "dataset_v4"; is_dir := true |} ].

(** ** Further parts of the pipeline *)

(** [str(n)] for an [int]: decimal, with a minus sign for a negative
    number. *)
Definition str_of_int (n : Z) : string := NilZero.string_of_int (Z.to_int n).

(** [f"dataset_v{version}"], the name of the directory that [save_dataset]
    creates for a version ([--version] is an [int]). *)
Definition version_dir_name (version : Z) : string :=
  String.append "dataset_v" (str_of_int version).

(** That directory as an item of the output root. *)
Definition version_dir (version : Z) : dir_entry :=
  {| name := version_dir_name version; is_dir := true |}.

(** The value of [get_next_version] for the list [existing_versions]. *)
Definition next_of (existing_versions : list Z) : Z :=
  match existing_versions with
  | [] => 1%Z
  | v :: vs => (list_max v vs + 1)%Z
  end.

(** How the loop of [apply_filters] judges one candidate: whether a
    transcription record was found for it, and the results of the two filters
    on the records joined to it. *)
Definition has_transcription (pd td : gmap string Dict.t) (sample : string)
  : bool :=
  negb (Dict.is_empty (joined pd td sample).2).

Definition duration_verdict (pd td : gmap string Dict.t) (th : thresholds)
    (sample : string) : bool * reason :=
  filter_by_duration (joined pd td sample).1 (min_duration th) (max_duration th).

Definition quality_verdict (pd td : gmap string Dict.t) (th : thresholds)
    (sample : string) : bool * reason :=
  filter_by_transcription_quality (joined pd td sample).2
    (min_confidence th) (min_words th).

(** The element that a candidate adds to [filtered_samples], if any. *)
Definition passed_sample (pd td : gmap string Dict.t) (th : thresholds)
    (sample : string) : option Sample.t :=
  if has_transcription pd td sample
     && (duration_verdict pd td th sample).1
     && (quality_verdict pd td th sample).1
  then Some (Sample.mk sample (joined pd td sample).1 (joined pd td sample).2
               "passed")
  else None.

(** The element that a candidate adds to [filter_report['reasons']], if
    any. *)
Definition failed_entry (pd td : gmap string Dict.t) (th : thresholds)
    (sample : string) : option (string * list reason) :=
  let d := duration_verdict pd td th sample in
  let q := quality_verdict pd td th sample in
  if has_transcription pd td sample && negb (d.1 && q.1)
  then Some (sample, (if d.1 then [] else [d.2]) ++ (if q.1 then [] else [q.2]))
  else None.

(** The candidates counted by [failed_duration], [failed_quality] and
    [failed_both]. *)
Definition fails_duration (pd td : gmap string Dict.t) (th : thresholds)
    (sample : string) : bool :=
  has_transcription pd td sample && negb (duration_verdict pd td th sample).1.

Definition fails_quality (pd td : gmap string Dict.t) (th : thresholds)
    (sample : string) : bool :=
  has_transcription pd td sample && negb (quality_verdict pd td th sample).1.

Definition fails_both (pd td : gmap string Dict.t) (th : thresholds)
    (sample : string) : bool :=
  fails_duration pd td th sample && fails_quality pd td th sample.

(** A candidate that is returned: it has a transcription record and passes
    both filters. *)
Definition passes (pd td : gmap string Dict.t) (th : thresholds)
    (sample : string) : bool :=
  has_transcription pd td sample
  && (duration_verdict pd td th sample).1
  && (quality_verdict pd td th sample).1.

(** A candidate that is itemized as a failure. *)
Definition fails (pd td : gmap string Dict.t) (th : thresholds)
    (sample : string) : bool :=
  has_transcription pd td sample
  && negb ((duration_verdict pd td th sample).1
           && (quality_verdict pd td th sample).1).

(** The order of the rows of the frame: ascending [sample_id], in the
    code-point order of [str]. *)
Definition by_sample_id (a b : Row.t) : Prop :=
  String.leb (Row.sample_id a) (Row.sample_id b) = true.

(** [preprocess_audio_file].  [dsp] stands for the body of the [try]
    (loading at the target rate, trimming, normalizing, writing the output):
    the text of the exception it raises, or the original duration, the final
    duration and the sample rate. *)
Definition preprocess_audio_file
    (dsp : string -> string -> string + (Q * Q * Z))
    (input_path output_path : string) : Dict.t :=
  match dsp input_path output_path with
  | inr (original_duration, final_duration, sr) =>
      preprocess_ok original_duration final_duration sr output_path
  | inl e => preprocess_failed e
  end.

(** What [model.transcribe] returns, as far as [transcribe_audio] reads it:
    the text, the language if present, and the [no_speech_prob] of each
    segment if present. *)
Record whisper_result := {
  whisper_text : string;
  whisper_language : option string;
  whisper_segments : option (list (option Q))
}.

(** [transcribe_audio].  [recognize] stands for [model.transcribe]: the text
    of the exception, or its result.  [float_sum] stands for the built-in
    [sum] over the probabilities of the segments, whose rounding depends on
    the version of the interpreter ([sequential_sum] up to 3.11); the
    division by the number of segments and the subtraction from [1.0] are
    float operations. *)
Definition transcribe_audio (float_sum : list Q -> Q)
    (recognize : string -> string + whisper_result)
    (audio_path : string) : Dict.t :=
  match recognize audio_path with
  | inr result =>
      let text := Str.strip (whisper_text result) in
      let detected_language := default "unknown" (whisper_language result) in
      let segments := default [] (whisper_segments result) in
      let confidence :=
        match segments with
        | [] => 0.5%Q
        | _ =>
            let avg_no_speech_prob :=
              float_div (float_sum (map (default 0%Q) segments))
                (inject_Z (Z.of_nat (length segments))) in
            float_sub 1 avg_no_speech_prob
        end in
      Dict.mk (Some true) None None None None None None None (Some text)
        (Some detected_language) (Some confidence)
        (Some (Z.of_nat (length (Str.split text))))
        (Some (Z.of_nat (length segments))) None None
  | inl e =>
      Dict.mk (Some false) (Some e) None None None None None None
        (Some EmptyString) None (Some 0%Q) None None None None
  end.

(** The two keys that [transcribe_batch] adds to a result. *)
Definition name_transcription (file_name file_path : string) (r : Dict.t)
  : Dict.t :=
  let 'Dict.mk s e o f sr op i ou t l c w sg _ _ := r in
  Dict.mk s e o f sr op i ou t l c w sg (Some file_name) (Some file_path).

(** The loop of [transcribe_batch] over the [.wav] files found, each given
    by its name and its path. *)
Definition transcribe_batch (float_sum : list Q -> Q)
    (recognize : string -> string + whisper_result)
    (audio_files : list (string * string)) : list Dict.t :=
  map (fun audio_file =>
         name_transcription audio_file.1 audio_file.2
           (transcribe_audio float_sum recognize audio_file.2))
    audio_files.

(** What [run_pipeline] returns when it completes; the statistics are left
    out, as in [create_dataset_metadata]. *)
Record pipeline_result (P : Type) := {
  result_version : Z;
  result_preprocess_results : list Dict.t;
  result_transcription_results : list Dict.t;
  result_filter_report : Report.t;
  result_filtered_samples : list Sample.t;
  result_dataset : list Row.t;
  result_saved_paths : P
}.
Arguments result_version {P} _.
Arguments result_preprocess_results {P} _.
Arguments result_transcription_results {P} _.
Arguments result_filter_report {P} _.
Arguments result_filtered_samples {P} _.
Arguments result_dataset {P} _.
Arguments result_saved_paths {P} _.

Definition is_nil {A} (l : list A) : bool :=
  match l with [] => true | _ => false end.

(** The names printed before the filter runs: [r['filename']] is read with
    brackets on every transcription record. *)
Fixpoint transcription_names (transcription_results : list Dict.t)
  : result (list string) :=
  match transcription_results with
  | [] => Ok []
  | r :: rs =>
      f ← item "filename" (Dict.filename r);
      rest ← transcription_names rs;
      Ok (f :: rest)
  end.

(** The number of transcribed files printed in the final summary:
    [r['success']] is read with brackets on every transcription record, by
    the comprehension that [successful_preprocess] models. *)
Definition transcribed_count (transcription_results : list Dict.t)
  : result nat :=
  successful ← successful_preprocess transcription_results;
  Ok (length successful).

(** [run_pipeline], with the lists that the two batch stages return as
    inputs and [save_dataset], which writes the files, as a parameter.  The
    inner [None] is the [return None] of a stage that ends the run.  Of what
    is printed, the two values whose computation reads a key with brackets
    are kept, at the place where they are computed. *)
Definition run_pipeline {P} (save_dataset : list Row.t -> Z -> result P)
    (output_dir : path_state) (version : option Z)
    (preprocess_results transcription_results : list Dict.t) (th : thresholds)
  : result (option (pipeline_result P)) :=
  version ← match version with
            | Some v => Ok v
            | None => get_next_version output_dir
            end;
  if is_nil preprocess_results then Ok None else
  successful ← successful_preprocess preprocess_results;
  if is_nil successful then Ok None else
  if is_nil transcription_results then Ok None else
  processed ← processed_files successful;
  available ← transcription_names transcription_results;
  out ← apply_filters processed preprocess_results transcription_results th;
  if is_nil out.1 then Ok None else
  df ← create_dataset_metadata out.1;
  saved_paths ← save_dataset df version;
  transcribed ← transcribed_count transcription_results;
  Ok (Some {| result_version := version;
              result_preprocess_results := preprocess_results;
              result_transcription_results := transcription_results;
              result_filter_report := out.2;
              result_filtered_samples := out.1;
              result_dataset := df;
              result_saved_paths := saved_paths |}).

(** * Properties *)

(** ** Comparisons and strings *)

Lemma Qltb_lt x y : Qltb x y = true <-> (x < y)%Q.
Proof.
  unfold Qltb. rewrite negb_true_iff, <- not_true_iff_false, Qle_bool_iff.
  split; [apply Qnot_le_lt | apply Qlt_not_le].
Qed.

Lemma Qltb_ge x y : Qltb x y = false <-> (y <= x)%Q.
Proof. unfold Qltb. rewrite negb_false_iff. apply Qle_bool_iff. Qed.

Lemma is_empty_false s : Str.is_empty s = false <-> s <> EmptyString.
Proof. destruct s; simpl; split; congruence. Qed.

Lemma has_ascii_letter_elem s :
  Str.has_ascii_letter s = true <->
  exists c, In c (list_ascii_of_string s) /\ Str.is_ascii_letter c = true.
Proof.
  induction s as [|a s IH]; simpl.
  - split; [discriminate | intros (c & [] & _)].
  - rewrite orb_true_iff, IH. split.
    + intros [Ha | (c & Hc & Hl)]; [exists a | exists c]; auto.
    + intros (c & [<- | Hc] & Hl); [left | right; exists c]; auto.
Qed.

(** ** The quality filter *)

(** The quality filter as a chain of guards: every way to reach
    ["Quality OK"] has passed the five checks before the repetition check. *)
Lemma quality_pass_guards sample min_confidence min_words :
  (filter_by_transcription_quality sample min_confidence min_words).1 = true ->
  succeeded sample = true
  /\ Str.is_empty (Str.strip (default EmptyString (Dict.text sample))) = false
  /\ Qltb (default 0%Q (Dict.confidence sample)) min_confidence = false
  /\ (default 0%Z (Dict.word_count sample) <? min_words)%Z = false
  /\ Str.has_ascii_letter
       (Str.strip (default EmptyString (Dict.text sample))) = true.
Proof.
  unfold filter_by_transcription_quality, succeeded.
  destruct (default false (Dict.success sample)); simpl; [|discriminate].
  destruct (Str.is_empty _); [discriminate|].
  destruct (Qltb _ min_confidence); [discriminate|].
  destruct (_ <? min_words)%Z; [discriminate|].
  destruct (Str.has_ascii_letter _); simpl; [|discriminate].
  auto.
Qed.

(** C1. Whenever the quality filter lets a sample pass, the stripped text of
    the sample is not empty, its confidence is at least [min_confidence], its
    word count is at least [min_words], and the stripped text holds a
    character of [a-zA-Z]. *)
Theorem quality_pass_sound sample min_confidence min_words :
  (filter_by_transcription_quality sample min_confidence min_words).1 = true ->
  let text := Str.strip (default EmptyString (Dict.text sample)) in
  text <> EmptyString
  /\ (min_confidence <= default 0%Q (Dict.confidence sample))%Q
  /\ (min_words <= default 0%Z (Dict.word_count sample))%Z
  /\ exists c, In c (list_ascii_of_string text)
               /\ Str.is_ascii_letter c = true.
Proof.
  intros Hpass text.
  destruct (quality_pass_guards _ _ _ Hpass) as (_ & Ht & Hc & Hw & Ha).
  repeat split.
  - by apply is_empty_false.
  - by apply Qltb_ge.
  - by apply Z.ltb_ge.
  - by apply has_ascii_letter_elem.
Qed.

Lemma quality_pass_sound_witness :
  let sample := scenario_tc in
  Str.strip (default EmptyString (Dict.text sample)) <> EmptyString
  /\ (double_0_3 <= default 0%Q (Dict.confidence sample))%Q
  /\ (3 <= default 0%Z (Dict.word_count sample))%Z
  /\ exists c, In c (list_ascii_of_string
                       (Str.strip (default EmptyString (Dict.text sample))))
               /\ Str.is_ascii_letter c = true.
Proof.
  intros sample. apply (quality_pass_sound sample double_0_3 3). reflexivity.
Defined.

(** ** The duration filter *)

(** C2. With [duration] the final duration that the filter reads: a duration
    below [min_duration] fails as too short and a duration above
    [max_duration] fails; for bounds in order, a duration equal to either
    bound passes and a duration above [max_duration] fails as too long. *)
Theorem duration_bounds_inclusive sample min_duration max_duration :
  let duration := default 0%Q (Dict.final_duration sample) in
  let verdict := filter_by_duration sample min_duration max_duration in
  ((duration < min_duration)%Q ->
     verdict = (false, TooShort duration min_duration))
  /\ ((max_duration < duration)%Q -> verdict.1 = false)
  /\ ((min_duration <= max_duration)%Q ->
        ((duration == min_duration)%Q -> verdict = (true, DurationOK))
        /\ ((duration == max_duration)%Q -> verdict = (true, DurationOK))
        /\ ((max_duration < duration)%Q ->
              verdict = (false, TooLong duration max_duration))).
Proof.
  intros duration verdict. subst verdict. unfold filter_by_duration.
  fold duration. split; [|split].
  - intros H. apply Qltb_lt in H. by rewrite H.
  - intros H. apply Qltb_lt in H. rewrite H. by destruct (Qltb duration _).
  - intros Hb. split; [|split].
    + intros E.
      assert (H1 : Qltb duration min_duration = false)
        by (apply Qltb_ge; rewrite E; apply Qle_refl).
      assert (H2 : Qltb max_duration duration = false)
        by (apply Qltb_ge; by rewrite E).
      by rewrite H1, H2.
    + intros E.
      assert (H1 : Qltb duration min_duration = false)
        by (apply Qltb_ge; by rewrite E).
      assert (H2 : Qltb max_duration duration = false)
        by (apply Qltb_ge; rewrite E; apply Qle_refl).
      by rewrite H1, H2.
    + intros H.
      assert (H1 : Qltb duration min_duration = false).
      { apply Qltb_ge. apply Qle_trans with max_duration; [done|].
        by apply Qlt_le_weak. }
      apply Qltb_lt in H. by rewrite H1, H.
Qed.

Lemma duration_bounds_inclusive_witness :
  filter_by_duration (preprocess_ok 5 2 16000 "x.wav") 2 300 = (true, DurationOK)
  /\ filter_by_duration (preprocess_ok 301 300 16000 "x.wav") 2 300
     = (true, DurationOK)
  /\ filter_by_duration (preprocess_ok 5 1.75 16000 "x.wav") 2 300
     = (false, TooShort 1.75 2)
  /\ filter_by_duration (preprocess_ok 301 300.5 16000 "x.wav") 2 300
     = (false, TooLong 300.5 300).
Proof.
  assert (Hb : (2 <= 300)%Q) by (unfold Qle; simpl; lia).
  split; [|split; [|split]].
  - destruct (duration_bounds_inclusive (preprocess_ok 5 2 16000 "x.wav") 2 300)
      as (_ & _ & H).
    destruct (H Hb) as (Hmin & _ & _). apply Hmin. reflexivity.
  - destruct (duration_bounds_inclusive (preprocess_ok 301 300 16000 "x.wav") 2 300)
      as (_ & _ & H).
    destruct (H Hb) as (_ & Hmax & _). apply Hmax. reflexivity.
  - destruct (duration_bounds_inclusive (preprocess_ok 5 1.75 16000 "x.wav") 2 300)
      as (Hshort & _ & _).
    apply Hshort. reflexivity.
  - destruct (duration_bounds_inclusive (preprocess_ok 301 300.5 16000 "x.wav") 2 300)
      as (_ & _ & H).
    destruct (H Hb) as (_ & _ & Hlong). apply Hlong. reflexivity.
Defined.

(** ** The repetition check *)

Lemma Zpos_of_nat n : (0 < n)%nat -> Z.pos (Pos.of_nat n) = Z.of_nat n.
Proof. intros H. rewrite <- positive_nat_Z, Nat2Pos.id; lia. Qed.

Lemma ratio_all_distinct n : (0 < n)%nat -> Qltb (ratio n n) (3 # 10) = false.
Proof.
  intros H. apply Qltb_ge. unfold ratio, Qle. simpl.
  rewrite Zpos_of_nat by done. lia.
Qed.

Lemma size_replicate_set (w : string) n :
  size (list_to_set (replicate (S n) w) : gset string) = 1%nat.
Proof.
  assert (E : (list_to_set (replicate (S n) w) : gset string) = {[w]}).
  { apply set_eq. intros x. rewrite elem_of_list_to_set, elem_of_singleton.
    rewrite elem_of_replicate. split; [tauto | intros ->; split; [done | lia]]. }
  rewrite E. apply size_singleton.
Qed.

Lemma quality_after_guards sample min_confidence min_words :
  earlier_checks_hold sample min_confidence min_words ->
  filter_by_transcription_quality sample min_confidence min_words =
  let words :=
    Str.split (Str.lower (Str.strip (default EmptyString (Dict.text sample)))) in
  if (0 <? length words)%nat then
    let unique_ratio :=
      ratio (size (list_to_set words : gset string)) (length words) in
    if Qltb unique_ratio (3 # 10) && (5 <? length words)%nat
    then (false, ExcessiveRepetition unique_ratio) else (true, QualityOK)
  else (true, QualityOK).
Proof.
  intros (Hs & Ht & Hc & Hw & Ha). unfold filter_by_transcription_quality.
  unfold succeeded in Hs. rewrite Hs. simpl negb. cbv iota.
  apply is_empty_false in Ht. rewrite Ht.
  apply Qltb_ge in Hc. rewrite Hc.
  apply Z.ltb_ge in Hw. rewrite Hw.
  by rewrite Ha.
Qed.

(** C3. Let [words] be the whitespace tokens of the lower-cased stripped text
    and [unique_ratio] the number of distinct tokens over their number.  If
    there are more than 5 tokens and [unique_ratio] is below 0.3, the quality
    filter fails the sample, and with the excessive-repetition reason when
    the checks that come before hold.  Under those checks a text of one word
    six times fails with that reason, and a text of pairwise distinct words
    passes. *)
Theorem repetition_check sample min_confidence min_words :
  let words :=
    Str.split (Str.lower (Str.strip (default EmptyString (Dict.text sample)))) in
  let unique_ratio :=
    ratio (size (list_to_set words : gset string)) (length words) in
  let verdict :=
    filter_by_transcription_quality sample min_confidence min_words in
  ((5 < length words)%nat -> (unique_ratio < 3 # 10)%Q ->
     verdict.1 = false
     /\ (earlier_checks_hold sample min_confidence min_words ->
         verdict = (false, ExcessiveRepetition unique_ratio)))
  /\ (earlier_checks_hold sample min_confidence min_words ->
      (forall w, words = replicate 6 w ->
         verdict = (false, ExcessiveRepetition (1 # 6)))
      /\ (NoDup words -> verdict = (true, QualityOK))).
Proof.
  intros words unique_ratio verdict. split.
  - intros Hlen Hratio.
    assert (Hrep : earlier_checks_hold sample min_confidence min_words ->
                   verdict = (false, ExcessiveRepetition unique_ratio)).
    { intros He. subst verdict. rewrite (quality_after_guards _ _ _ He).
      cbv zeta. fold words. fold unique_ratio.
      apply Qltb_lt in Hratio. rewrite Hratio.
      assert (H0 : (0 <? length words)%nat = true) by (apply Nat.ltb_lt; lia).
      assert (H5 : (5 <? length words)%nat = true) by (by apply Nat.ltb_lt).
      by rewrite H0, H5. }
    split; [|done].
    destruct (verdict.1) eqn:Hv; [|done].
    destruct (quality_pass_guards _ _ _ Hv) as (Hs & Ht & Hc & Hw & Ha).
    rewrite Hrep in Hv; [done|].
    repeat split; try done.
    + by apply is_empty_false.
    + by apply Qltb_ge.
    + by apply Z.ltb_ge.
  - intros He. subst verdict. rewrite (quality_after_guards _ _ _ He).
    cbv zeta. fold words. split.
    + intros w ->. rewrite size_replicate_set. reflexivity.
    + intros Hnd. destruct (0 <? length words)%nat eqn:H0; [|done].
      rewrite (size_list_to_set words Hnd).
      rewrite ratio_all_distinct by (by apply Nat.ltb_lt). done.
Qed.

Lemma repetition_check_witness :
  filter_by_transcription_quality
    (transcribe_ok "r.wav" "r.wav" "go go go go go go" "en" 0.875 1)
    double_0_3 3
  = (false, ExcessiveRepetition (1 # 6))
  /\ filter_by_transcription_quality
       (transcribe_ok "d.wav" "d.wav" "we go to the big lake" "en" 0.875 1)
       double_0_3 3
     = (true, QualityOK).
Proof.
  split.
  - destruct (repetition_check
                (transcribe_ok "r.wav" "r.wav" "go go go go go go" "en" 0.875 1)
                double_0_3 3) as (_ & H).
    destruct H as (Hsame & _).
    { repeat split; by vm_compute. }
    apply (Hsame "go"). reflexivity.
  - destruct (repetition_check
                (transcribe_ok "d.wav" "d.wav" "we go to the big lake" "en" 0.875 1)
                double_0_3 3) as (_ & H).
    destruct H as (_ & Hdistinct).
    { repeat split; by vm_compute. }
    apply Hdistinct. vm_compute. apply (bool_decide_unpack _). by vm_compute.
Defined.

(** ** Letter case *)

Lemma all_ascii_complete c : In c all_ascii.
Proof.
  unfold all_ascii. rewrite <- (ascii_nat_embedding c).
  apply in_map, in_seq. pose proof (nat_ascii_bounded c). lia.
Qed.

Lemma same_letter_lower c d :
  same_letter c d = Ascii.eqb (Str.lower_char c) (Str.lower_char d).
Proof.
  assert (H : forallb (fun c => forallb (fun d =>
                Bool.eqb (same_letter c d)
                  (Ascii.eqb (Str.lower_char c) (Str.lower_char d)))
                all_ascii) all_ascii = true) by (vm_compute; reflexivity).
  rewrite forallb_forall in H. specialize (H c (all_ascii_complete c)).
  rewrite forallb_forall in H. specialize (H d (all_ascii_complete d)).
  by apply eqb_prop.
Qed.

Lemma differs_only_in_case_lower a b :
  differs_only_in_case a b = true <-> Str.lower a = Str.lower b.
Proof.
  revert b. induction a as [|c a IH]; intros [|d b]; simpl; try (split; congruence).
  rewrite andb_true_iff, same_letter_lower, Ascii.eqb_eq, IH.
  split; [intros [-> ->]; done | intros [= -> ->]; done].
Qed.

(** ** The lookup dictionaries *)

Lemma filename_not_empty d f : Dict.filename d = Some f -> Dict.is_empty d = false.
Proof.
  intros H. unfold Dict.is_empty. rewrite H. simpl.
  by rewrite andb_false_r.
Qed.

Lemma preprocess_dict_from_lookup rs : forall acc pd,
  preprocess_dict_from acc rs = Ok pd ->
  forall sample,
    pd !! Str.lower sample =
    match spec_latest Dict.output_file succeeded sample rs with
    | Some r => Some r
    | None => acc !! Str.lower sample
    end.
Proof.
  induction rs as [|r rs IH]; intros acc pd H sample; simpl in *.
  - by injection H as <-.
  - unfold succeeded at 2. destruct (default false (Dict.success r)) eqn:Hs.
    + destruct (Dict.output_file r) as [f|]; simpl in H; [|discriminate].
      rewrite (IH _ _ H sample).
      destruct (spec_latest _ _ _ rs); [done|]. simpl.
      rewrite lookup_insert.
      destruct (differs_only_in_case f sample) eqn:E.
      * apply differs_only_in_case_lower in E. by rewrite decide_True.
      * rewrite decide_False; [done|].
        intros E'. apply differs_only_in_case_lower in E'. congruence.
    + rewrite (IH _ _ H sample).
      destruct (spec_latest _ _ _ rs); [done|].
      by destruct (Dict.output_file r).
Qed.

Lemma transcribe_dict_from_lookup rs : forall acc td,
  transcribe_dict_from acc rs = Ok td ->
  forall sample,
    td !! Str.lower sample =
    match spec_latest Dict.filename (fun _ => true) sample rs with
    | Some r => Some r
    | None => acc !! Str.lower sample
    end.
Proof.
  induction rs as [|r rs IH]; intros acc td H sample; simpl in *.
  - by injection H as <-.
  - destruct (Dict.filename r) as [f|]; simpl in H; [|discriminate].
    rewrite (IH _ _ H sample).
    destruct (spec_latest _ _ _ rs); [done|]. simpl.
    rewrite lookup_insert.
    destruct (differs_only_in_case f sample) eqn:E.
    + apply differs_only_in_case_lower in E. by rewrite decide_True.
    + rewrite decide_False; [done|].
      intros E'. apply differs_only_in_case_lower in E'. congruence.
Qed.

(** The comprehensions raise only on a record that lacks its file name; the
    records made by [preprocess_audio_batch] all carry theirs. *)
Lemma preprocess_dict_builds rs : forall acc,
  (forall r, r ∈ rs -> succeeded r = true -> is_Some (Dict.output_file r)) ->
  exists pd, preprocess_dict_from acc rs = Ok pd.
Proof.
  induction rs as [|r rs IH]; intros acc Hnamed; simpl; [eauto|].
  assert (Hrest : forall r', r' ∈ rs -> succeeded r' = true ->
                             is_Some (Dict.output_file r'))
    by (intros r' Hr'; apply Hnamed; by right).
  destruct (default false (Dict.success r)) eqn:Hs; [|by apply IH].
  destruct (Hnamed r) as [f Hf]; [by left | done |].
  rewrite Hf. simpl. by apply IH.
Qed.

Lemma transcribe_dict_builds rs : forall acc,
  (forall r, r ∈ rs -> is_Some (Dict.filename r)) ->
  exists td, transcribe_dict_from acc rs = Ok td.
Proof.
  induction rs as [|r rs IH]; intros acc Hnamed; simpl; [eauto|].
  destruct (Hnamed r) as [f Hf]; [by left|].
  rewrite Hf. simpl. apply IH. intros r' Hr'. apply Hnamed. by right.
Qed.

Lemma preprocess_audio_batch_named preprocess_audio_file audio_files r :
  r ∈ preprocess_audio_batch preprocess_audio_file audio_files ->
  is_Some (Dict.output_file r).
Proof.
  unfold preprocess_audio_batch. intros (f & -> & _)%list_elem_of_fmap.
  unfold name_result. destruct (preprocess_audio_file f). simpl. eauto.
Qed.

(** Every record of the transcription dictionary carries its file name, so
    none of them is [{}]. *)
Lemma transcribe_dict_from_named rs : forall acc td,
  transcribe_dict_from acc rs = Ok td ->
  (forall k r, acc !! k = Some r -> is_Some (Dict.filename r)) ->
  forall k r, td !! k = Some r -> is_Some (Dict.filename r).
Proof.
  induction rs as [|r rs IH]; intros acc td H Hacc k r' Hk; simpl in *.
  - injection H as <-. eauto.
  - destruct (Dict.filename r) as [f|] eqn:Hf; simpl in H; [|discriminate].
    apply (IH _ _ H) with k; [|done].
    intros k0 r0. rewrite lookup_insert. case_decide; [|by apply Hacc].
    intros [= <-]. by rewrite Hf.
Qed.

Lemma transcribe_dict_not_empty trs td k r :
  transcribe_dict trs = Ok td -> td !! k = Some r -> Dict.is_empty r = false.
Proof.
  intros H Hk.
  destruct (transcribe_dict_from_named trs ∅ td H) with k r as [f Hf];
    [by intros ? ? ?%lookup_empty_Some | done |].
  by apply filename_not_empty with f.
Qed.

Lemma joined_transcribed trs td pd sample :
  transcribe_dict trs = Ok td ->
  Dict.is_empty (joined pd td sample).2 = negb (bool_decide (is_Some (td !! Str.lower sample))).
Proof.
  intros H. unfold joined. simpl.
  destruct (td !! Str.lower sample) as [r|] eqn:E; simpl; [|done].
  by rewrite (transcribe_dict_not_empty _ _ _ _ H E).
Qed.

(** C5. When both lookup dictionaries build, the records that [apply_filters]
    joins to a candidate are, on either side, the last record of the input
    collection (the last successful one for preprocessing) whose file name
    differs from the candidate at most in letter case, and [{}] when there is
    none; the whole result is that of the loop run with this join. *)
Theorem join_is_case_insensitive pre trs pd td :
  preprocess_dict pre = Ok pd ->
  transcribe_dict trs = Ok td ->
  (forall sample, joined pd td sample = spec_joined pre trs sample)
  /\ forall samples th,
       apply_filters samples pre trs th =
       Ok (foldl (spec_filter_step pre trs th)
             ([], Report.mk (length samples) 0 0 0 0 []) samples).
Proof.
  intros Hpd Htd.
  assert (Hj : forall sample, joined pd td sample = spec_joined pre trs sample).
  { intros sample. unfold joined, spec_joined.
    rewrite (preprocess_dict_from_lookup _ _ _ Hpd sample).
    rewrite (transcribe_dict_from_lookup _ _ _ Htd sample).
    rewrite !lookup_empty.
    by do 2 destruct (spec_latest _ _ _ _). }
  split; [done|].
  intros samples th. unfold apply_filters. rewrite Hpd, Htd. simpl. f_equal.
  generalize (([] : list Sample.t), Report.mk (length samples) 0 0 0 0 []).
  induction samples as [|s samples IH]; intros st; simpl; [done|].
  rewrite IH. f_equal. unfold filter_step, spec_filter_step. by rewrite Hj.
Qed.

Lemma join_is_case_insensitive_witness :
  differs_only_in_case "Sample.wav" "sample.wav" = true
  /\ (exists pd td,
        preprocess_dict case_preprocess = Ok pd
        /\ transcribe_dict case_transcriptions = Ok td
        /\ joined pd td "SAMPLE.wav" =
           (name_result "Sample.flac"
              (preprocess_ok 7 6 16000 "processed_audio/Sample.wav"),
            transcribe_ok "sample.wav" "processed_audio/sample.wav"
              " one two three" "en" 0.75 1)).
Proof.
  split; [reflexivity|].
  destruct (preprocess_dict case_preprocess) as [pd|] eqn:Hpd; [|discriminate].
  destruct (transcribe_dict case_transcriptions) as [td|] eqn:Htd; [|discriminate].
  exists pd, td. split; [done|]. split; [done|].
  destruct (join_is_case_insensitive _ _ _ _ Hpd Htd) as (Hj & _).
  rewrite Hj. reflexivity.
Defined.

(** ** One iteration of the filter loop *)

Lemma record_verdict_pass th fs rep sample preproc transcr :
  Dict.is_empty transcr = false ->
  (filter_by_duration preproc (min_duration th) (max_duration th)).1 = true ->
  (filter_by_transcription_quality transcr (min_confidence th) (min_words th)).1
    = true ->
  record_verdict th (fs, rep) sample preproc transcr =
  (fs ++ [Sample.mk sample preproc transcr "passed"],
   Report.mk (Report.total rep) (Report.passed rep + 1)
     (Report.failed_duration rep) (Report.failed_quality rep)
     (Report.failed_both rep) (Report.reasons rep)).
Proof.
  intros He Hd Hq. unfold record_verdict. rewrite He.
  destruct (filter_by_duration _ _ _) as [dp dr].
  destruct (filter_by_transcription_quality _ _ _) as [qp qr].
  simpl in Hd, Hq. subst. by destruct rep.
Qed.

Lemma record_verdict_fail th fs rep sample preproc transcr :
  let d := filter_by_duration preproc (min_duration th) (max_duration th) in
  let q := filter_by_transcription_quality transcr (min_confidence th)
             (min_words th) in
  Dict.is_empty transcr = false ->
  d.1 && q.1 = false ->
  record_verdict th (fs, rep) sample preproc transcr =
  (fs,
   Report.mk (Report.total rep) (Report.passed rep)
     (if d.1 then Report.failed_duration rep else Report.failed_duration rep + 1)
     (if q.1 then Report.failed_quality rep else Report.failed_quality rep + 1)
     (if negb d.1 && negb q.1
      then Report.failed_both rep + 1 else Report.failed_both rep)
     (Report.reasons rep
      ++ [(sample, (if d.1 then [] else [d.2]) ++ (if q.1 then [] else [q.2]))])).
Proof.
  intros d q He Hdq. subst d q. unfold record_verdict. rewrite He.
  destruct (filter_by_duration _ _ _) as [dp dr].
  destruct (filter_by_transcription_quality _ _ _) as [qp qr].
  simpl in *. rewrite Hdq. by destruct rep.
Qed.

Lemma low_confidence_fails sample min_confidence min_words :
  (default 0%Q (Dict.confidence sample) < min_confidence)%Q ->
  (filter_by_transcription_quality sample min_confidence min_words).1 = false.
Proof.
  intros H. apply Qltb_lt in H. unfold filter_by_transcription_quality.
  destruct (negb _); [done|]. destruct (Str.is_empty _); [done|].
  by rewrite H.
Qed.

Lemma above_range_too_long sample min_duration max_duration :
  (min_duration <= max_duration)%Q ->
  (max_duration < default 0%Q (Dict.final_duration sample))%Q ->
  filter_by_duration sample min_duration max_duration
  = (false, TooLong (default 0%Q (Dict.final_duration sample)) max_duration).
Proof.
  intros Hb H. unfold filter_by_duration.
  assert (H1 : Qltb (default 0%Q (Dict.final_duration sample)) min_duration
               = false).
  { apply Qltb_ge. apply Qle_trans with max_duration; [done|].
    by apply Qlt_le_weak. }
  apply Qltb_lt in H. by rewrite H1, H.
Qed.

#[local] Arguments record_verdict : simpl never.

(** ** The three-file scenario *)

(** C4. Three candidates with a transcription record each, under the default
    thresholds: the first within the duration bounds and of confidence 0.1,
    the second of final duration 500 and of passing quality, the third
    passing both filters.  Then [apply_filters] returns the third sample
    alone, and the report counts 3 candidates, 1 passed, 1 failed on
    duration, 1 failed on quality and none on both, with one itemized reason
    for each of the two failures. *)
Theorem three_file_scenario a b c pre trs pd td pa pb pc ta tb tc :
  preprocess_dict pre = Ok pd ->
  transcribe_dict trs = Ok td ->
  pd !! Str.lower a = Some pa -> td !! Str.lower a = Some ta ->
  pd !! Str.lower b = Some pb -> td !! Str.lower b = Some tb ->
  pd !! Str.lower c = Some pc -> td !! Str.lower c = Some tc ->
  (filter_by_duration pa 2 300).1 = true ->
  (default 0%Q (Dict.confidence ta) == double_0_1)%Q ->
  (default 0%Q (Dict.final_duration pb) == 500)%Q ->
  (filter_by_transcription_quality tb double_0_3 3).1 = true ->
  (filter_by_duration pc 2 300).1 = true ->
  (filter_by_transcription_quality tc double_0_3 3).1 = true ->
  apply_filters [a; b; c] pre trs default_thresholds =
  Ok ([Sample.mk c pc tc "passed"],
      Report.mk 3 1 1 1 0
        [(a, [(filter_by_transcription_quality ta double_0_3 3).2]);
         (b, [TooLong (default 0%Q (Dict.final_duration pb)) 300])]).
Proof.
  intros Hpd Htd Hpa Hta Hpb Htb Hpc Htc Hda Hca Hdb Hqb Hdc Hqc.
  assert (Hqa : (filter_by_transcription_quality ta double_0_3 3).1 = false).
  { apply low_confidence_fails. by rewrite Hca. }
  assert (Hdb' : filter_by_duration pb 2 300
                 = (false, TooLong (default 0%Q (Dict.final_duration pb)) 300)).
  { apply above_range_too_long; [done | by rewrite Hdb]. }
  unfold apply_filters. rewrite Hpd, Htd.
  cbn [mbind result_bind foldl length]. f_equal.
  unfold filter_step, joined. rewrite Hpa, Hta, Hpb, Htb, Hpc, Htc.
  cbn [default from_option id].
  rewrite record_verdict_fail;
    [| by eapply transcribe_dict_not_empty | simpl; by rewrite Hda, Hqa].
  simpl. rewrite Hda, Hqa. simpl.
  rewrite record_verdict_fail;
    [| by eapply transcribe_dict_not_empty | simpl; by rewrite Hdb'].
  simpl. rewrite Hdb', Hqb. simpl.
  rewrite record_verdict_pass;
    [done | by eapply transcribe_dict_not_empty | done | done].
Qed.

Lemma three_file_scenario_witness :
  apply_filters ["a.wav"; "b.wav"; "c.wav"] scenario_preprocess
    scenario_transcriptions default_thresholds =
  Ok ([Sample.mk "c.wav" scenario_pc scenario_tc "passed"],
      Report.mk 3 1 1 1 0
        [("a.wav", [LowConfidence double_0_1 double_0_3]);
         ("b.wav", [TooLong 500 300])]).
Proof.
  apply (three_file_scenario "a.wav" "b.wav" "c.wav"
           scenario_preprocess scenario_transcriptions _ _
           scenario_pa scenario_pb scenario_pc
           scenario_ta scenario_tb scenario_tc eq_refl eq_refl);
    by vm_compute.
Defined.

(** ** Counting over the filter loop *)

Lemma record_verdict_counted th st sample preproc transcr :
  counted (if Dict.is_empty transcr then 0 else 1) st
    (record_verdict th st sample preproc transcr).
Proof.
  unfold counted, record_verdict. destruct st as [fs [tot p fd fq fb rs]].
  destruct (Dict.is_empty transcr); [simpl; lia|].
  destruct (filter_by_duration _ _ _) as [[] dr];
    destruct (filter_by_transcription_quality _ _ _) as [[] qr];
    simpl; rewrite ?length_app; simpl; lia.
Qed.

Lemma counted_trans n m st1 st2 st3 :
  counted n st1 st2 -> counted m st2 st3 -> counted (n + m) st1 st3.
Proof. unfold counted. simpl. lia. Qed.

Lemma transcribed_length td samples :
  length (transcribed td samples) <= length samples.
Proof. apply length_filter. Qed.

Lemma transcribed_all td samples :
  length (transcribed td samples) = length samples
  <-> forall sample, sample ∈ samples -> is_Some (td !! Str.lower sample).
Proof.
  unfold transcribed. induction samples as [|s samples IH].
  - split; [by intros _ ? ?%elem_of_nil | done].
  - rewrite filter_cons.
    pose proof (transcribed_length td samples) as Hle. unfold transcribed in Hle.
    case_decide as Hs; simpl.
    + split.
      * intros E sample [->|Hin]%elem_of_cons; [done|].
        apply IH; [lia | done].
      * intros Hall. f_equal. apply IH. intros sample Hin.
        apply Hall. by right.
    + split; [lia|]. intros Hall. destruct Hs. apply Hall. by left.
Qed.

Lemma foldl_filter_step_counted trs td pd th samples :
  transcribe_dict trs = Ok td ->
  forall st,
    counted (length (transcribed td samples)) st
      (foldl (filter_step pd td th) st samples).
Proof.
  intros Htd. induction samples as [|s samples IH]; intros st.
  - unfold counted. simpl. lia.
  - cbn [foldl]. unfold transcribed. rewrite filter_cons.
    pose proof (record_verdict_counted th st s (joined pd td s).1
                  (joined pd td s).2) as Hs.
    rewrite (joined_transcribed _ _ _ _ Htd) in Hs.
    assert (E : filter_step pd td th st s =
                record_verdict th st s (joined pd td s).1 (joined pd td s).2)
      by (unfold filter_step; by destruct (joined pd td s)).
    rewrite E. specialize (IH (record_verdict th st s (joined pd td s).1
                                 (joined pd td s).2)).
    case_decide.
    + rewrite bool_decide_eq_true_2 in Hs by done. simpl in Hs.
      simpl length. by apply (counted_trans 1 _ _ _ _ Hs).
    + rewrite bool_decide_eq_false_2 in Hs by done. simpl in Hs.
      by apply (counted_trans 0 _ _ _ _ Hs).
Qed.

(** C10. In a report returned by [apply_filters], [total] is the number of
    candidates; [passed] plus the number of itemized failures is the number
    of candidates that have a transcription record, hence at most [total],
    and equal to [total] exactly when every candidate has one.  The other
    counters count itemized failures only: [passed] is the number of samples
    returned, and [failed_duration + failed_quality - failed_both] is the
    number of itemized failures. *)
Theorem report_accounts_for_transcribed samples pre trs th filtered report :
  apply_filters samples pre trs th = Ok (filtered, report) ->
  exists td,
    transcribe_dict trs = Ok td
    /\ Report.total report = length samples
    /\ Report.passed report + length (Report.reasons report)
       = length (transcribed td samples)
    /\ Report.passed report + length (Report.reasons report)
       <= Report.total report
    /\ (Report.passed report + length (Report.reasons report)
        = Report.total report
        <-> forall sample, sample ∈ samples ->
                           is_Some (td !! Str.lower sample))
    /\ Report.passed report = length filtered
    /\ Report.failed_duration report + Report.failed_quality report
       = length (Report.reasons report) + Report.failed_both report
    /\ Report.failed_both report <= Report.failed_duration report
    /\ Report.failed_both report <= Report.failed_quality report.
Proof.
  unfold apply_filters.
  destruct (preprocess_dict pre) as [pd|] eqn:Hpd; [|discriminate].
  destruct (transcribe_dict trs) as [td|] eqn:Htd; [|discriminate].
  cbn [mbind result_bind]. intros [= H]. exists td. split; [done|].
  pose proof (foldl_filter_step_counted trs td pd th samples Htd
                ([], Report.mk (length samples) 0 0 0 0 [])) as Hc.
  rewrite H in Hc. unfold counted in Hc. simpl in Hc.
  destruct Hc as (Ht & Hn & Hp & Hf & Hbd & Hbq & _).
  pose proof (transcribed_length td samples) as Hle.
  pose proof (transcribed_all td samples) as Hall.
  repeat split; try lia.
  - intros E. apply Hall. lia.
  - intros E. apply Hall in E. lia.
Qed.

Lemma report_accounts_for_transcribed_witness :
  exists filtered report td,
    apply_filters ["a.wav"; "zz.wav"; "c.wav"] scenario_preprocess
      scenario_transcriptions default_thresholds = Ok (filtered, report)
    /\ transcribe_dict scenario_transcriptions = Ok td
    /\ td !! Str.lower "zz.wav" = None
    /\ Report.total report = 3
    /\ Report.passed report + length (Report.reasons report) = 2.
Proof.
  destruct (apply_filters ["a.wav"; "zz.wav"; "c.wav"] scenario_preprocess
              scenario_transcriptions default_thresholds)
    as [[filtered report]|] eqn:H; [|discriminate].
  destruct (report_accounts_for_transcribed _ _ _ _ _ _ H)
    as (td & Htd & Ht & Hn & _).
  exists filtered, report, td. split; [done|]. split; [done|].
  injection Htd as <-. split; [by vm_compute|]. split; [done|].
  rewrite Hn. by vm_compute.
Defined.

(** ** Membership over the filter loop *)

Lemma filter_step_joined pd td th st sample :
  filter_step pd td th st sample =
  record_verdict th st sample (joined pd td sample).1 (joined pd td sample).2.
Proof. unfold filter_step. by destruct (joined pd td sample). Qed.

Lemma record_verdict_keeps_reasons th st sample preproc transcr e :
  e ∈ Report.reasons st.2 ->
  e ∈ Report.reasons (record_verdict th st sample preproc transcr).2.
Proof.
  unfold record_verdict. destruct st as [fs [tot p fd fq fb rs]].
  destruct (Dict.is_empty transcr); [done|].
  destruct (filter_by_duration _ _ _) as [[] dr];
    destruct (filter_by_transcription_quality _ _ _) as [[] qr];
    simpl; rewrite ?elem_of_app; auto.
Qed.

Lemma foldl_keeps_reasons pd td th samples e : forall st,
  e ∈ Report.reasons st.2 ->
  e ∈ Report.reasons (foldl (filter_step pd td th) st samples).2.
Proof.
  induction samples as [|s samples IH]; intros st He; [done|].
  cbn [foldl]. apply IH. rewrite filter_step_joined.
  by apply record_verdict_keeps_reasons.
Qed.

Lemma record_verdict_filtered pd td th st sample x :
  x ∈ (filter_step pd td th st sample).1 ->
  x ∈ st.1 \/ (Sample.filename x = sample /\ passed_both pd td th x).
Proof.
  rewrite filter_step_joined. unfold record_verdict.
  destruct st as [fs [tot p fd fq fb rs]].
  destruct (Dict.is_empty _); [auto|].
  destruct (filter_by_duration _ _ _) as [[] dr] eqn:Hd;
    destruct (filter_by_transcription_quality _ _ _) as [[] qr] eqn:Hq;
    simpl; auto.
  rewrite elem_of_app, list_elem_of_singleton. intros [?| ->]; [auto|].
  right. split; [done|]. unfold passed_both, joined in *. simpl in *.
  by rewrite Hd, Hq.
Qed.

Lemma foldl_filtered pd td th samples x : forall st,
  x ∈ (foldl (filter_step pd td th) st samples).1 ->
  x ∈ st.1 \/ (Sample.filename x ∈ samples /\ passed_both pd td th x).
Proof.
  induction samples as [|s samples IH]; intros st Hx; [auto|].
  cbn [foldl] in Hx. destruct (IH _ Hx) as [Hin | [Hin Hp]].
  - destruct (record_verdict_filtered _ _ _ _ _ _ Hin) as [?|[<- Hp]]; [auto|].
    right. split; [by left | done].
  - right. split; [by right | done].
Qed.

Lemma empty_record_too_short min_duration max_duration :
  (0 < min_duration)%Q ->
  filter_by_duration Dict.empty min_duration max_duration
  = (false, TooShort 0 min_duration).
Proof.
  intros H. unfold filter_by_duration. simpl.
  apply Qltb_lt in H. by rewrite H.
Qed.

Lemma foldl_reports_missing pd td trs th samples sample :
  transcribe_dict trs = Ok td ->
  sample ∈ samples ->
  pd !! Str.lower sample = None ->
  is_Some (td !! Str.lower sample) ->
  (0 < min_duration th)%Q ->
  forall st, exists rs,
    (sample, TooShort 0 (min_duration th) :: rs)
    ∈ Report.reasons (foldl (filter_step pd td th) st samples).2.
Proof.
  intros Htd Hin Hpd [t Ht] Hmin.
  induction samples as [|s samples IH]; intros st; [by apply elem_of_nil in Hin|].
  cbn [foldl]. apply elem_of_cons in Hin as [<-|Hin]; [|by apply IH].
  rewrite filter_step_joined. unfold joined. rewrite Hpd, Ht. simpl.
  destruct st as [fs rep]. rewrite record_verdict_fail.
  - rewrite empty_record_too_short by done. simpl.
    eexists. apply foldl_keeps_reasons. simpl.
    rewrite elem_of_app, list_elem_of_singleton. by right.
  - by eapply transcribe_dict_not_empty.
  - by rewrite empty_record_too_short.
Qed.

(** C9. Let both lookup dictionaries build, and let a candidate have a
    transcription record and no entry in the preprocessing dictionary.  Then
    [apply_filters] returns (no error is raised); the duration filter runs on
    [{}], reads the final duration 0 and, for a positive [min_duration],
    fails it as too short; the candidate is itemized in the report with that
    reason first, and is not among the samples returned. *)
Theorem missing_preprocessing_fails samples pre trs th pd td sample :
  preprocess_dict pre = Ok pd ->
  transcribe_dict trs = Ok td ->
  sample ∈ samples ->
  pd !! Str.lower sample = None ->
  is_Some (td !! Str.lower sample) ->
  (0 < min_duration th)%Q ->
  exists filtered report,
    apply_filters samples pre trs th = Ok (filtered, report)
    /\ (joined pd td sample).1 = Dict.empty
    /\ filter_by_duration (joined pd td sample).1
         (min_duration th) (max_duration th)
       = (false, TooShort 0 (min_duration th))
    /\ (exists rs, (sample, TooShort 0 (min_duration th) :: rs)
                   ∈ Report.reasons report)
    /\ (forall x, x ∈ filtered -> Sample.filename x <> sample).
Proof.
  intros Hpd Htd Hin Hnone Hsome Hmin.
  unfold apply_filters. rewrite Hpd, Htd. cbn [mbind result_bind].
  destruct (foldl _ _ samples) as [filtered report] eqn:Hf.
  exists filtered, report. split; [done|].
  assert (Hj : (joined pd td sample).1 = Dict.empty)
    by (unfold joined; by rewrite Hnone).
  split; [done|]. rewrite Hj. split; [by apply empty_record_too_short|]. split.
  - destruct (foldl_reports_missing pd td trs th samples sample Htd Hin Hnone
                Hsome Hmin ([], Report.mk (length samples) 0 0 0 0 []))
      as [rs Hrs].
    rewrite Hf in Hrs. by exists rs.
  - intros x Hx E.
    pose proof (foldl_filtered pd td th samples x
                  ([], Report.mk (length samples) 0 0 0 0 [])) as Hp.
    rewrite Hf in Hp. destruct (Hp Hx) as [Hnil | [_ (Hjx & Hd & _)]].
    + by apply elem_of_nil in Hnil.
    + rewrite E in Hjx.
      assert (Ep : Sample.preprocessing x = Dict.empty)
        by (rewrite <- Hj; by rewrite <- Hjx).
      rewrite Ep, empty_record_too_short in Hd by done. discriminate.
Qed.

Lemma missing_preprocessing_fails_witness :
  exists filtered report,
    apply_filters ["lost.wav"] orphan_preprocess orphan_transcriptions
      default_thresholds = Ok (filtered, report)
    /\ (exists rs, ("lost.wav", TooShort 0 2 :: rs) ∈ Report.reasons report)
    /\ (forall x, x ∈ filtered -> Sample.filename x <> "lost.wav").
Proof.
  destruct (missing_preprocessing_fails ["lost.wav"] orphan_preprocess
              orphan_transcriptions default_thresholds _ _ "lost.wav"
              eq_refl eq_refl)
    as (filtered & report & H & _ & _ & Hr & Hf).
  - constructor.
  - reflexivity.
  - vm_compute. eauto.
  - reflexivity.
  - exists filtered, report. auto.
Defined.

(** ** Version resolution *)

Lemma list_max_spec l : forall x,
  (list_max x l = x \/ list_max x l ∈ l)
  /\ (x <= list_max x l)%Z
  /\ forall y, y ∈ l -> (y <= list_max x l)%Z.
Proof.
  unfold list_max. induction l as [|a l IH]; intros x; simpl.
  - split; [by left|]. split; [lia|]. by intros y ?%elem_of_nil.
  - destruct (IH (Z.max x a)) as (Hin & Hle & Hall). split; [|split].
    + destruct Hin as [E|Hin]; [|right; by right].
      rewrite E. destruct (Z.max_spec x a) as [[_ ->]|[_ ->]];
        [right; by left | by left].
    + lia.
    + intros y [->|Hy]%elem_of_cons; [lia | by apply Hall].
Qed.

Lemma scan_versions_elem items v :
  v ∈ scan_versions items
  <-> exists item, item ∈ items /\ parsed_version item = Some v.
Proof.
  induction items as [|i items IH]; simpl.
  - split; [by intros ?%elem_of_nil | by intros (? & ?%elem_of_nil & _)].
  - destruct (parsed_version i) as [w|] eqn:Hi.
    + rewrite elem_of_cons, IH. split.
      * intros [->|(item & Hin & Hp)]; [exists i | exists item];
          (split; [|done]); [by left | by right].
      * intros (item & [->|Hin]%elem_of_cons & Hp);
          [left; congruence | right; eauto].
    + rewrite IH. split.
      * intros (item & Hin & Hp). exists item. split; [by right | done].
      * intros (item & [->|Hin]%elem_of_cons & Hp); [congruence | eauto].
Qed.

Lemma scan_versions_app items1 items2 :
  scan_versions (items1 ++ items2) = scan_versions items1 ++ scan_versions items2.
Proof.
  induction items1 as [|i items1 IH]; simpl; [done|].
  destruct (parsed_version i); simpl; by rewrite IH.
Qed.

(** C6. [get_next_version] returns 1 for an output root that does not exist
    and for one in which no item is a directory named by the pattern with a
    number that parses; when some item is, it returns one more than the
    greatest version parsed from such items.  An item that is not one of
    them can be dropped without changing the result.  For the directories of
    versions 1, 2 and 4 the result is 5. *)
Theorem get_next_version_spec (items : list dir_entry) :
  get_next_version Missing = Ok 1%Z
  /\ ((forall item, item ∈ items -> parsed_version item = None) ->
      get_next_version (Directory items) = Ok 1%Z)
  /\ (forall item v, item ∈ items -> parsed_version item = Some v ->
      exists m,
        get_next_version (Directory items) = Ok (m + 1)%Z
        /\ (exists item', item' ∈ items /\ parsed_version item' = Some m)
        /\ forall item' w, item' ∈ items -> parsed_version item' = Some w ->
                           (w <= m)%Z)
  /\ (forall before item after,
        items = before ++ item :: after -> parsed_version item = None ->
        get_next_version (Directory items)
        = get_next_version (Directory (before ++ after)))
  /\ get_next_version (Directory version_dirs) = Ok 5%Z.
Proof.
  split; [done|]. split; [|split; [|split; [|done]]].
  - intros Hnone. simpl. destruct (scan_versions items) as [|v vs] eqn:E; [done|].
    assert (Hv : v ∈ scan_versions items) by (rewrite E; by left).
    apply scan_versions_elem in Hv as (item & Hin & Hp).
    rewrite (Hnone item Hin) in Hp. discriminate.
  - intros item v Hin Hp. simpl.
    destruct (scan_versions items) as [|x vs] eqn:E.
    + assert (Hv : v ∈ scan_versions items)
        by (apply scan_versions_elem; eauto).
      rewrite E in Hv. by apply elem_of_nil in Hv.
    + exists (list_max x vs).
      destruct (list_max_spec vs x) as (Hm & Hx & Hall).
      split; [done|]. split.
      * apply scan_versions_elem. rewrite E.
        destruct Hm as [->|Hm]; [by left | by right].
      * intros item' w Hin' Hp'.
        assert (Hw : w ∈ scan_versions items)
          by (apply scan_versions_elem; eauto).
        rewrite E in Hw. apply elem_of_cons in Hw as [->|Hw]; [done|].
        by apply Hall.
  - intros before item after -> Hp. simpl.
    rewrite !scan_versions_app. simpl. by rewrite Hp.
Qed.

Lemma get_next_version_spec_witness :
  get_next_version
    (Directory ({| name := "dataset_v9"; is_dir := false |}
                :: {| name := "dataset_vnext"; is_dir := true |}
                :: version_dirs)) = Ok 5%Z
  /\ get_next_version
       (Directory [ {| name := "notes"; is_dir := true |} ]) = Ok 1%Z.
Proof.
  split.
  - destruct (get_next_version_spec
                ({| name := "dataset_v9"; is_dir := false |}
                 :: {| name := "dataset_vnext"; is_dir := true |}
                 :: version_dirs)) as (_ & _ & _ & Hdrop & _).
    rewrite (Hdrop [] _ _ eq_refl eq_refl). simpl app.
    destruct (get_next_version_spec
                ({| name := "dataset_vnext"; is_dir := true |} :: version_dirs))
      as (_ & _ & _ & Hdrop' & Hex).
    rewrite (Hdrop' [] _ _ eq_refl eq_refl). exact Hex.
  - destruct (get_next_version_spec [ {| name := "notes"; is_dir := true |} ])
      as (_ & Hnone & _).
    apply Hnone. intros item ->%list_elem_of_singleton. reflexivity.
Defined.

(** ** The dataset builder *)

Lemma insert_row_perm r rows : insert_row r rows ≡ₚ r :: rows.
Proof.
  induction rows as [|x rows IH]; simpl; [done|].
  destruct (String.leb _ _); [done|].
  rewrite IH. apply Permutation_swap.
Qed.

Lemma sort_values_perm rows : sort_values rows ≡ₚ rows.
Proof.
  induction rows as [|r rows IH]; simpl; [done|].
  by rewrite insert_row_perm, IH.
Qed.

Lemma create_dataset_metadata_returns samples :
  samples <> [] ->
  create_dataset_metadata samples
  = Ok (sort_values (map dataset_record samples)).
Proof. intros H. unfold create_dataset_metadata. by destruct samples. Qed.

Lemma create_dataset_metadata_rows samples df :
  create_dataset_metadata samples = Ok df ->
  samples <> [] /\ df ≡ₚ map dataset_record samples.
Proof.
  intros H. assert (Hne : samples <> []) by (intros ->; discriminate).
  rewrite create_dataset_metadata_returns in H by done.
  split; [done|].
  assert (E : df = sort_values (map dataset_record samples)) by congruence.
  rewrite E. apply sort_values_perm.
Qed.

(** C7, as the code has it. For every list of filtered samples, the builder
    returns a frame when the list is not empty, and the rows of a frame it
    returns are the records of the samples in some order; the [sample_id] of
    each row is the stem of its file name; and the sample ids are pairwise
    distinct exactly when the stems of the samples' file names are. *)
Theorem sample_ids_are_stems samples :
  (samples <> [] -> exists df, create_dataset_metadata samples = Ok df)
  /\ forall df,
       create_dataset_metadata samples = Ok df ->
       df ≡ₚ map dataset_record samples
       /\ (forall r, r ∈ df -> Row.sample_id r = Str.stem (Row.filename r))
       /\ (NoDup (map Row.sample_id df)
           <-> NoDup (map (fun s => Str.stem (Sample.filename s)) samples)).
Proof.
  split; [intros Hne; rewrite create_dataset_metadata_returns by done; eauto|].
  intros df [_ Hp]%create_dataset_metadata_rows.
  split; [done|]. split.
  - intros r Hr. rewrite Hp in Hr.
    apply list_elem_of_fmap in Hr as (s & -> & _). done.
  - rewrite Hp. by rewrite <- list_fmap_compose.
Qed.

Lemma sample_ids_are_stems_witness :
  exists df,
    create_dataset_metadata
      [Sample.mk "c.wav" scenario_pc scenario_tc "passed";
       Sample.mk "a.wav" scenario_pa scenario_ta "passed"] = Ok df
    /\ map Row.sample_id df = ["a"; "c"]
    /\ NoDup (map Row.sample_id df).
Proof.
  destruct (sample_ids_are_stems
              [Sample.mk "c.wav" scenario_pc scenario_tc "passed";
               Sample.mk "a.wav" scenario_pa scenario_ta "passed"])
    as (Hret & Hrows).
  destruct Hret as [df Hdf]; [discriminate|].
  destruct (Hrows df Hdf) as (_ & _ & Hnd).
  exists df. split; [done|]. split.
  - injection Hdf as <-. reflexivity.
  - apply Hnd. vm_compute. apply (bool_decide_unpack _). by vm_compute.
Defined.

(** Two raw files with one stem pass through preprocessing and filtering as
    two samples named ["talk.wav"], and the builder gives both rows the
    sample id ["talk"]. *)
Lemma duplicate_sample_ids :
  filter_stage talk_preprocess talk_transcriptions default_thresholds
  = Ok (talk_samples, Report.mk 2 2 0 0 0 [])
  /\ create_dataset_metadata talk_samples
     = Ok (map dataset_record talk_samples)
  /\ map Row.sample_id (map dataset_record talk_samples) = ["talk"; "talk"]
  /\ ~ NoDup (map Row.sample_id (map dataset_record talk_samples)).
Proof.
  split; [by vm_compute|]. split; [by vm_compute|]. split; [by vm_compute|].
  intros Hnd. apply NoDup_cons in Hnd as [Hin _]. apply Hin. by left.
Qed.

(** ** Float arithmetic *)

Lemma round_half_even_ge N D : (N / D <= round_half_even N D)%Z.
Proof.
  unfold round_half_even.
  destruct (2 * (N mod D) <? D)%Z; [lia|].
  destruct (D <? 2 * (N mod D))%Z; [lia|].
  destruct (Z.even (N / D)); lia.
Qed.

Lemma round_half_even_le N D c :
  (0 < D)%Z -> (N <= c * D)%Z -> (round_half_even N D <= c)%Z.
Proof.
  intros HD HN. unfold round_half_even.
  pose proof (Z.div_mod N D ltac:(lia)) as Hdm.
  pose proof (Z.mod_pos_bound N D HD) as Hr.
  assert (Hq : (N / D <= c)%Z).
  { apply Z.div_le_upper_bound; lia. }
  destruct (2 * (N mod D) <? D)%Z eqn:E; [lia|].
  apply Z.ltb_ge in E.
  assert (Hlt : (N / D < c)%Z) by nia.
  destruct (D <? 2 * (N mod D))%Z; [lia|].
  destruct (Z.even (N / D)); lia.
Qed.

(** The distance between the doubles around [t] units is at most [t]. *)
Lemma spacing_le t : (1 <= t)%Z -> (2 ^ Z.max (Z.log2 t - 52) 0 <= t)%Z.
Proof.
  intros Ht.
  destruct (Z.max_spec (Z.log2 t - 52) 0) as [[_ ->]|[_ ->]].
  - simpl. lia.
  - pose proof (Z.log2_spec t ltac:(lia)) as [Hlo _].
    pose proof (Z.log2_nonneg t).
    etransitivity; [|exact Hlo].
    apply Z.pow_le_mono_r; lia.
Qed.

Lemma round64_units_nonneg n d : (0 <= round64_units n d)%Z.
Proof.
  unfold round64_units.
  set (N := (Z.pos n * Z.pos double_unit)%Z).
  set (s := Z.max (Z.log2 (N / Z.pos d) - 52) 0).
  assert (0 <= s)%Z by (subst s; lia).
  assert (0 < 2 ^ s)%Z by (apply Z.pow_pos_nonneg; lia).
  pose proof (round_half_even_ge N (Z.pos d * 2 ^ s)).
  assert (0 <= N / (Z.pos d * 2 ^ s))%Z.
  { apply Z.div_pos; [subst N|]; lia. }
  nia.
Qed.

(** A value of at least one unit rounds to at least one unit. *)
Lemma round64_units_pos n d :
  (Z.pos d <= Z.pos n * Z.pos double_unit)%Z -> (1 <= round64_units n d)%Z.
Proof.
  intros Hge. unfold round64_units.
  set (N := (Z.pos n * Z.pos double_unit)%Z) in *.
  set (t := (N / Z.pos d)%Z).
  set (s := Z.max (Z.log2 t - 52) 0).
  assert (Ht : (1 <= t)%Z).
  { subst t. apply Z.div_le_lower_bound; lia. }
  pose proof (spacing_le t Ht) as Hs. fold s in Hs.
  assert (0 <= s)%Z by (subst s; lia).
  assert (H2 : (0 < 2 ^ s)%Z) by (apply Z.pow_pos_nonneg; lia).
  pose proof (round_half_even_ge N (Z.pos d * 2 ^ s)) as Hr.
  assert (1 <= N / (Z.pos d * 2 ^ s))%Z.
  { rewrite <- Z.div_div by lia. fold t.
    apply Z.div_le_lower_bound; lia. }
  nia.
Qed.

(** A value of at most [c], a whole number below [2^53], rounds to at most
    [c]. *)
Lemma round64_units_le_int n d c :
  (1 <= c < 2 ^ 53)%Z -> (Z.pos n <= c * Z.pos d)%Z ->
  (round64_units n d <= c * Z.pos double_unit)%Z.
Proof.
  intros Hc Hle. unfold round64_units.
  set (U := Z.pos double_unit).
  set (N := (Z.pos n * U)%Z).
  set (t := (N / Z.pos d)%Z).
  set (s := Z.max (Z.log2 t - 52) 0).
  assert (HU : U = (2 ^ 1074)%Z) by reflexivity.
  assert (Ht : (0 <= t <= c * U)%Z).
  { subst t. split; [apply Z.div_pos; subst N; lia|].
    apply Z.div_le_upper_bound; [lia|]. subst N. nia. }
  assert (Hs : (0 <= s <= 1074)%Z).
  { subst s. split; [lia|].
    apply Z.max_lub; [|lia].
    assert (Z.log2 t <= Z.log2 (c * U))%Z by (apply Z.log2_le_mono; lia).
    assert (Z.log2 (c * U) = 1074 + Z.log2 c)%Z
      by (rewrite HU; apply Z.log2_mul_pow2; lia).
    assert (Z.log2 c < 53)%Z by (apply Z.log2_lt_pow2; lia).
    lia. }
  assert (H2 : (0 < 2 ^ s)%Z) by (apply Z.pow_pos_nonneg; lia).
  assert (Hsplit : (U = 2 ^ (1074 - s) * 2 ^ s)%Z).
  { rewrite <- Z.pow_add_r by lia. rewrite HU. f_equal. lia. }
  assert (H3 : (0 <= 2 ^ (1074 - s))%Z) by (apply Z.pow_nonneg; lia).
  assert (Hr : (round_half_even N (Z.pos d * 2 ^ s) <= c * 2 ^ (1074 - s))%Z).
  { apply round_half_even_le; [lia|].
    subst N. rewrite Hsplit. nia. }
  rewrite Hsplit, Z.mul_assoc. apply Z.mul_le_mono_nonneg_r; lia.
Qed.

Lemma max_double_units_pos : (1 <= max_double_units)%Z.
Proof.
  unfold max_double_units.
  assert (0 < 2 ^ 2045)%Z by (apply Z.pow_pos_nonneg; lia).
  assert (2 <= 2 ^ 53)%Z
    by (change 2%Z with (2 ^ 1)%Z at 1; apply Z.pow_le_mono_r; lia).
  nia.
Qed.

(** Every result of [round64] is a whole number of units. *)
Lemma round64_form q : exists k : Z, (round64 q == k # double_unit)%Q.
Proof.
  unfold round64. destruct (Qnum q).
  - by exists 0%Z.
  - by eexists.
  - by eexists.
Qed.

(** Rounding does not flush a negative value of at least one unit to zero. *)
Lemma round64_negative q :
  (1 # double_unit <= - q)%Q -> (round64 q < 0)%Q.
Proof.
  destruct q as [n d]. unfold Qle, round64. cbn [Qnum Qden Qopp].
  intros Hq.
  destruct n as [|n|n]; [lia|lia|].
  pose proof (round64_units_pos n d ltac:(lia)).
  pose proof max_double_units_pos.
  unfold Qlt. cbn [Qnum Qden]. lia.
Qed.

Lemma round64_nonneg q : (0 <= q)%Q -> (0 <= round64 q)%Q.
Proof.
  destruct q as [n d]. unfold Qle, round64. cbn [Qnum Qden].
  intros H0.
  destruct n as [|n|n]; [cbn; lia| |lia].
  pose proof (round64_units_nonneg n d).
  pose proof max_double_units_pos.
  cbn [Qnum Qden]. lia.
Qed.

Lemma round64_le_int q c :
  (1 <= c < 2 ^ 53)%Z -> (q <= inject_Z c)%Q -> (round64 q <= inject_Z c)%Q.
Proof.
  destruct q as [n d]. unfold Qle, round64, inject_Z. cbn [Qnum Qden].
  intros Hc Hq.
  pose proof max_double_units_pos.
  destruct n as [|n|n]; cbn [Qnum Qden].
  - lia.
  - pose proof (round64_units_le_int n d c Hc ltac:(lia)). lia.
  - pose proof (round64_units_nonneg n d). lia.
Qed.

Lemma round64_unit_interval q :
  (0 <= q)%Q -> (q <= 1)%Q -> (0 <= round64 q)%Q /\ (round64 q <= 1)%Q.
Proof.
  intros H0 H1. split; [by apply round64_nonneg|].
  apply (round64_le_int q 1); [lia | done].
Qed.

(** The difference of two doubles is a whole number of units, so that a
    negative one is at least one unit away from zero and its rounding is
    negative. *)
Lemma float_sub_negative x y :
  is_double x -> is_double y -> (x < y)%Q -> (float_sub x y < 0)%Q.
Proof.
  unfold is_double. intros Hx Hy Hlt.
  destruct (round64_form x) as [kx Hkx], (round64_form y) as [ky Hky].
  rewrite Hx in Hkx. rewrite Hy in Hky.
  apply round64_negative.
  assert (Hk : (kx + 1 <= ky)%Z).
  { rewrite Hkx, Hky in Hlt. unfold Qlt in Hlt. cbn [Qnum Qden] in Hlt. nia. }
  rewrite Hkx, Hky. unfold Qle, Qminus, Qplus, Qopp. cbn [Qnum Qden].
  rewrite Pos2Z.inj_mul. nia.
Qed.

(** C8. For every list of filtered samples, the builder returns a frame when
    the list is not empty; in a frame it returns every row is the record of
    one of the samples and every sample has its record; and the trimmed
    duration of a record is the float difference [original - final] of the
    two durations read from the sample's preprocessing data, which is the
    exact difference whenever that is a double.  Nothing clamps it: for two
    doubles it is negative when the final duration exceeds the original
    one. *)
Theorem trimmed_duration_unclamped samples :
  (samples <> [] -> exists df, create_dataset_metadata samples = Ok df)
  /\ forall df,
       create_dataset_metadata samples = Ok df ->
       (forall r, r ∈ df <-> exists s, s ∈ samples /\ r = dataset_record s)
       /\ (forall r, r ∈ df ->
             Row.trimmed_duration r
             = float_sub (Row.original_duration r) (Row.duration_seconds r))
       /\ (forall s, s ∈ samples ->
             let original :=
               default 0%Q (Dict.original_duration (Sample.preprocessing s)) in
             let final :=
               default 0%Q (Dict.final_duration (Sample.preprocessing s)) in
             Row.trimmed_duration (dataset_record s) = float_sub original final
             /\ (is_double (original - final) ->
                 (Row.trimmed_duration (dataset_record s)
                  == original - final)%Q)
             /\ (is_double original -> is_double final ->
                 (original < final)%Q ->
                 (Row.trimmed_duration (dataset_record s) < 0)%Q)).
Proof.
  split; [intros Hne; rewrite create_dataset_metadata_returns by done; eauto|].
  intros df [_ Hp]%create_dataset_metadata_rows.
  assert (Hrows : forall r, r ∈ df
                            <-> exists s, s ∈ samples /\ r = dataset_record s).
  { intros r. rewrite Hp, list_elem_of_fmap. split.
    - intros (s & -> & Hs). eauto.
    - intros (s & Hs & ->). eauto. }
  split; [done|]. split.
  - intros r (s & _ & ->)%Hrows. done.
  - intros s _ original final.
    cbn [dataset_record Row.trimmed_duration]. fold original. fold final.
    split; [done|]. split.
    + intros Hd. exact Hd.
    + apply float_sub_negative.
Qed.

Lemma trimmed_duration_unclamped_witness :
  exists df,
    create_dataset_metadata [stretched; cut] = Ok df
    /\ (Row.trimmed_duration (dataset_record stretched) < 0)%Q
    /\ (Row.trimmed_duration (dataset_record stretched) == 4 - 5)%Q
    /\ dataset_record stretched ∈ df
    /\ (Row.trimmed_duration (dataset_record cut)
        == double_9_799999999999999)%Q
    /\ ~ (Row.trimmed_duration (dataset_record cut)
          == double_10_1 - double_0_3)%Q.
Proof.
  destruct (trimmed_duration_unclamped [stretched; cut]) as (Hret & Hrows).
  destruct Hret as [df Hdf]; [discriminate|].
  destruct (Hrows df Hdf) as (Hin & _ & Hrec).
  destruct (Hrec stretched ltac:(by left)) as (_ & Hexact & Hneg).
  exists df. split; [exact Hdf|]. split; [|split; [|split; [|split]]].
  - apply Hneg; by vm_compute.
  - apply Hexact. by vm_compute.
  - apply Hin. exists stretched. split; [by left | done].
  - by vm_compute.
  - by vm_compute.
Defined.

(** * Further properties *)

(** ** Version directories *)

(** Decides the tests on a literal character that guard a branch. *)
Ltac decide_char_tests :=
  repeat match goal with
    | |- context [Str.is_digit ?c] =>
        first [change (Str.is_digit c) with true
              |change (Str.is_digit c) with false]
    | |- context [Str.is_int_space ?c] =>
        first [change (Str.is_int_space c) with true
              |change (Str.is_int_space c) with false]
    | |- context [(Str.code ?c =? ?n)%N] =>
        first [change (Str.code c =? n)%N with true
              |change (Str.code c =? n)%N with false]
    end; cbn iota.

Lemma digits_from_uint d : forall p,
  Str.digits_from (Z.pos p) (NilEmpty.string_of_uint d)
  = Some (Z.pos (Pos.of_uint_acc d p)).
Proof.
  induction d as [|d IH|d IH|d IH|d IH|d IH|d IH|d IH|d IH|d IH|d IH];
    intros p; [done|..];
    cbn [NilEmpty.string_of_uint Str.digits_from Pos.of_uint_acc];
    decide_char_tests;
    rewrite <- IH; f_equal; unfold Str.digit_val; simpl; lia.
Qed.

Lemma digits_from_zero_uint d :
  Str.digits_from 0 (NilEmpty.string_of_uint d) = Some (Z.of_uint d).
Proof.
  induction d as [|d IH|d IH|d IH|d IH|d IH|d IH|d IH|d IH|d IH|d IH];
    [done | exact IH |..];
    cbn [NilEmpty.string_of_uint Str.digits_from];
    decide_char_tests;
    exact (digits_from_uint d _).
Qed.

Lemma digits_uint d :
  d <> Decimal.Nil ->
  Str.digits (NilEmpty.string_of_uint d) = Some (Z.of_uint d).
Proof.
  destruct d; [done|..]; intros _;
    cbn [NilEmpty.string_of_uint Str.digits];
    decide_char_tests;
    [exact (digits_from_zero_uint d) | exact (digits_from_uint d _) ..].
Qed.

Lemma remove_from_uint d :
  Str.remove_from "dataset_v" 0 (NilEmpty.string_of_uint d)
  = NilEmpty.string_of_uint d.
Proof. induction d; simpl; [done | by rewrite IHd ..]. Qed.

Lemma rstrip_uint d :
  Str.rstrip Str.is_int_space (NilEmpty.string_of_uint d)
  = NilEmpty.string_of_uint d.
Proof. induction d; simpl; [done | by rewrite IHd ..]. Qed.

Lemma to_uint_not_nil p : Pos.to_uint p <> Decimal.Nil.
Proof.
  intros E. pose proof (DecimalZ.of_to (Z.pos p)) as H. simpl in H.
  rewrite E in H. discriminate.
Qed.

Lemma lstrip_uint d :
  Str.lstrip Str.is_int_space (NilEmpty.string_of_uint d)
  = NilEmpty.string_of_uint d.
Proof. by destruct d. Qed.

Lemma int_uint d :
  d <> Decimal.Nil ->
  Str.int (NilEmpty.string_of_uint d) = Some (Z.of_uint d).
Proof.
  intros Hd. unfold Str.int. rewrite rstrip_uint, lstrip_uint.
  rewrite <- (digits_uint d Hd).
  destruct d; [done|..]; cbn [NilEmpty.string_of_uint]; by decide_char_tests.
Qed.

Lemma int_minus_uint d :
  d <> Decimal.Nil ->
  Str.int (String "-" (NilEmpty.string_of_uint d)) = Some (- Z.of_uint d)%Z.
Proof.
  intros Hd. unfold Str.int. cbn [Str.rstrip]. rewrite rstrip_uint.
  assert (Hne : Str.is_empty (NilEmpty.string_of_uint d) = false)
    by (by destruct d).
  rewrite Hne, andb_false_r. cbn [Str.lstrip]. decide_char_tests.
  by rewrite (digits_uint d Hd).
Qed.

(** [int(str(n))] is [n]. *)
Lemma int_str_of_int n : Str.int (str_of_int n) = Some n.
Proof.
  unfold str_of_int. destruct n as [|p|p]; [done|..];
    pose proof (to_uint_not_nil p) as Hn;
    pose proof (DecimalZ.of_to (Z.pos p)) as Hv; simpl in Hv;
    assert (Es : NilZero.string_of_uint (Pos.to_uint p)
                 = NilEmpty.string_of_uint (Pos.to_uint p))
      by (by destruct (Pos.to_uint p));
    simpl; rewrite Es.
  - by rewrite int_uint, Hv.
  - by rewrite int_minus_uint, Hv.
Qed.

Lemma str_of_int_cases n :
  (exists d, str_of_int n = NilEmpty.string_of_uint d)
  \/ (exists d, str_of_int n = String "-" (NilEmpty.string_of_uint d)).
Proof.
  unfold str_of_int. destruct n as [|p|p]; simpl.
  - left. by exists (Decimal.D0 Decimal.Nil).
  - left. exists (Pos.to_uint p). by destruct (Pos.to_uint p) eqn:E;
      [destruct (to_uint_not_nil p)|..].
  - right. exists (Pos.to_uint p). f_equal. by destruct (Pos.to_uint p) eqn:E;
      [destruct (to_uint_not_nil p)|..].
Qed.

Lemma remove_all_prefixed t :
  Str.remove_all "dataset_v" (String.append "dataset_v" t)
  = Str.remove_from "dataset_v" 0 t.
Proof. reflexivity. Qed.

Lemma startswith_prefixed t :
  Str.startswith "dataset_v" (String.append "dataset_v" t) = true.
Proof. reflexivity. Qed.

Lemma parsed_version_dir v : parsed_version (version_dir v) = Some v.
Proof.
  unfold parsed_version, version_dir, version_dir_name. cbn [is_dir name].
  rewrite startswith_prefixed, remove_all_prefixed. cbn [andb].
  assert (E : Str.remove_from "dataset_v" 0 (str_of_int v) = str_of_int v).
  { destruct (str_of_int_cases v) as [[d ->]|[d ->]].
    - apply remove_from_uint.
    - cbn [Str.remove_from]. change (Str.startswith _ _) with false. cbn iota.
      by rewrite remove_from_uint. }
  rewrite E. apply int_str_of_int.
Qed.

Lemma next_of_spec vs :
  vs <> [] ->
  (next_of vs - 1)%Z ∈ vs /\ forall w, w ∈ vs -> (w < next_of vs)%Z.
Proof.
  destruct vs as [|v vs]; [done|]. intros _. unfold next_of.
  destruct (list_max_spec vs v) as (Hin & Hle & Hall).
  replace (list_max v vs + 1 - 1)%Z with (list_max v vs) by lia. split.
  - destruct Hin as [->|Hin]; [by left | by right].
  - intros w [->|Hw]%elem_of_cons; [lia|]. specialize (Hall w Hw). lia.
Qed.

(** The next version depends on the versions found, not on their order or
    multiplicity. *)
Lemma next_of_same_elements vs vs' :
  (forall w, w ∈ vs <-> w ∈ vs') -> next_of vs = next_of vs'.
Proof.
  intros Hsame. destruct vs as [|v vs]; destruct vs' as [|v' vs'].
  - done.
  - assert (H : v' ∈ ([] : list Z)) by (apply Hsame; by left).
    by apply elem_of_nil in H.
  - assert (H : v ∈ ([] : list Z)) by (apply Hsame; by left).
    by apply elem_of_nil in H.
  - destruct (next_of_spec (v :: vs)) as [Hin Hup]; [done|].
    destruct (next_of_spec (v' :: vs')) as [Hin' Hup']; [done|].
    apply Hsame in Hin. apply Hsame in Hin'.
    specialize (Hup _ Hin'). specialize (Hup' _ Hin). lia.
Qed.

Lemma get_next_version_next_of items :
  get_next_version (Directory items) = Ok (next_of (scan_versions items)).
Proof. simpl. by destruct (scan_versions items). Qed.

Lemma scan_versions_perm items items' :
  items ≡ₚ items' -> forall w, w ∈ scan_versions items <-> w ∈ scan_versions items'.
Proof.
  intros Hp w. rewrite !scan_versions_elem.
  split; intros (item & Hin & Hv); exists item; split; try done.
  - by rewrite <- Hp.
  - by rewrite Hp.
Qed.

(** X1. The name under which [save_dataset] stores a version is read back by
    the scan of [get_next_version] as that version, for every integer. *)
Theorem version_name_round_trip (version : Z) :
  parsed_version {| name := version_dir_name version; is_dir := true |}
  = Some version.
Proof. apply parsed_version_dir. Qed.

(** X2. When the directory of version [n], the value of [get_next_version],
    is added to the output root (anywhere in the listing), the next call
    returns [n + 1]; and after any version [v] has been stored, the value
    handed out is greater than [v]. *)
Theorem versions_increment before after :
  (forall n,
     get_next_version (Directory (before ++ after)) = Ok n ->
     get_next_version (Directory (before ++ version_dir n :: after))
     = Ok (n + 1)%Z)
  /\ forall v, exists m,
       get_next_version (Directory (before ++ version_dir v :: after)) = Ok m
       /\ (v < m)%Z.
Proof.
  assert (Hscan : forall v,
            scan_versions (before ++ version_dir v :: after)
            = scan_versions before ++ v :: scan_versions after).
  { intros v. rewrite scan_versions_app. cbn [scan_versions].
    by rewrite parsed_version_dir. }
  split.
  - intros n. rewrite !get_next_version_next_of, Hscan, scan_versions_app.
    intros [= Hn]. f_equal.
    set (old := scan_versions before ++ scan_versions after) in *.
    set (new := scan_versions before ++ n :: scan_versions after).
    assert (Hnew : forall w, w ∈ new <-> w = n \/ w ∈ old).
    { intros w. unfold new, old. rewrite !elem_of_app, elem_of_cons. tauto. }
    destruct (next_of_spec new) as [Hin Hup];
      [unfold new; by destruct (scan_versions before)|].
    assert (Hn_in : n ∈ new) by (apply Hnew; by left).
    specialize (Hup _ Hn_in). apply Hnew in Hin as [Hin|Hin]; [lia|].
    destruct (next_of_spec old) as [_ Hold];
      [intros E; rewrite E in Hin; by apply elem_of_nil in Hin|].
    specialize (Hold _ Hin). lia.
  - intros v. eexists. split; [apply get_next_version_next_of|].
    rewrite Hscan. apply next_of_spec.
    + by destruct (scan_versions before).
    + rewrite elem_of_app, elem_of_cons. auto.
Qed.

Lemma versions_increment_witness :
  get_next_version (Directory (version_dir 5 :: version_dirs)) = Ok 6%Z.
Proof.
  destruct (versions_increment [] version_dirs) as [Hnext _].
  apply (Hnext 5%Z). reflexivity.
Defined.

(** X3. The version that [get_next_version] returns names a directory that
    is not yet in the output root: no directory listed there has the name
    that [save_dataset] will use for it. *)
Theorem next_version_is_fresh items n item :
  get_next_version (Directory items) = Ok n ->
  item ∈ items ->
  is_dir item = true ->
  name item <> version_dir_name n.
Proof.
  rewrite get_next_version_next_of. intros [= Hn] Hin Hdir Hname.
  assert (Hitem : item = version_dir n)
    by (destruct item; simpl in *; unfold version_dir; congruence).
  assert (Hv : n ∈ scan_versions items).
  { apply scan_versions_elem. exists item. split; [done|].
    rewrite Hitem. apply parsed_version_dir. }
  destruct (next_of_spec (scan_versions items)) as [_ Hup];
    [intros E; rewrite E in Hv; by apply elem_of_nil in Hv|].
  specialize (Hup _ Hv). lia.
Qed.

Lemma next_version_is_fresh_witness :
  name {| name := "dataset_v4"; is_dir := true |} <> version_dir_name 5.
Proof.
  apply (next_version_is_fresh version_dirs 5
           {| name := "dataset_v4"; is_dir := true |}).
  - reflexivity.
  - right. right. left.
  - reflexivity.
Defined.

(** X4. The value of [get_next_version] does not depend on the order in
    which the directory is listed. *)
Theorem next_version_order_independent items items' :
  items ≡ₚ items' ->
  get_next_version (Directory items) = get_next_version (Directory items').
Proof.
  intros Hp. rewrite !get_next_version_next_of. f_equal.
  apply next_of_same_elements. by apply scan_versions_perm.
Qed.

Lemma next_version_order_independent_witness :
  get_next_version (Directory (reverse version_dirs)) = Ok 5%Z.
Proof.
  rewrite <- (next_version_order_independent version_dirs (reverse version_dirs)).
  - reflexivity.
  - by rewrite reverse_Permutation.
Defined.

(** ** Output names *)

Lemma rfind_dot_wav s : forall i,
  Str.rfind_dot i (String.append s ".wav") = Some (i + String.length s)%nat.
Proof.
  induction s as [|c s IH]; intros i; simpl.
  - f_equal. lia.
  - rewrite IH. f_equal. lia.
Qed.

Lemma take_append s t : Str.take (String.length s) (String.append s t) = s.
Proof. induction s as [|c s IH]; simpl; [by destruct t | by rewrite IH]. Qed.

Lemma length_append s t :
  String.length (String.append s t) = (String.length s + String.length t)%nat.
Proof. induction s as [|c s IH]; simpl; [done | by rewrite IH]. Qed.

Lemma append_wav_inj s t :
  String.append s ".wav" = String.append t ".wav" -> s = t.
Proof.
  revert t. induction s as [|c s IH]; intros [|d t] E; simpl in E.
  - done.
  - apply (f_equal String.length) in E. simpl in E.
    rewrite length_append in E. simpl in E. lia.
  - apply (f_equal String.length) in E. simpl in E.
    rewrite length_append in E. simpl in E. lia.
  - injection E as -> E. f_equal. by apply IH.
Qed.

Lemma stem_not_empty f : f <> EmptyString -> Str.stem f <> EmptyString.
Proof.
  intros Hf. unfold Str.stem. destruct (Str.rfind_dot 0 f) as [i|]; [|done].
  destruct ((0 <? i)%nat && _) eqn:E; [|done].
  apply andb_true_iff in E as [Hi _]. apply Nat.ltb_lt in Hi.
  destruct i as [|i]; [lia|]. by destruct f.
Qed.

Lemma stem_wav s : s <> EmptyString -> Str.stem (String.append s ".wav") = s.
Proof.
  intros Hs. unfold Str.stem. rewrite rfind_dot_wav, length_append.
  change (0 + String.length s)%nat with (String.length s).
  assert (Hlen : (0 < String.length s)%nat) by (destruct s; simpl; [done | lia]).
  destruct (_ && _) eqn:E; [apply take_append|].
  apply andb_false_iff in E as [E|E]; apply Nat.ltb_ge in E; simpl in E; lia.
Qed.

(** X5. The name that preprocessing gives to the output of a raw file keeps
    the stem of the raw file, so the [sample_id] of a dataset record is the
    stem of the raw audio file it comes from; and two raw files are written
    to the same output name exactly when they have the same stem. *)
Theorem output_name_keeps_stem (audio_file other : string) :
  (audio_file <> EmptyString ->
   Str.stem (output_file_name audio_file) = Str.stem audio_file
   /\ forall preproc transcr status,
        Row.sample_id
          (dataset_record
             (Sample.mk (output_file_name audio_file) preproc transcr status))
        = Str.stem audio_file)
  /\ (output_file_name audio_file = output_file_name other
      <-> Str.stem audio_file = Str.stem other).
Proof.
  split.
  - intros Hf.
    assert (E : Str.stem (output_file_name audio_file) = Str.stem audio_file)
      by (unfold output_file_name; by apply stem_wav, stem_not_empty).
    split; [done|]. intros preproc transcr status. exact E.
  - unfold output_file_name. split; [apply append_wav_inj | by intros ->].
Qed.

Lemma output_name_keeps_stem_witness :
  Str.stem (output_file_name "interview.final.m4a") = "interview.final"
  /\ output_file_name "talk.mp3" = output_file_name "talk.wav".
Proof.
  split.
  - destruct (output_name_keeps_stem "interview.final.m4a" "") as [H _].
    destruct H as [H _]; [discriminate|]. rewrite H. reflexivity.
  - apply (output_name_keeps_stem "talk.mp3" "talk.wav"). reflexivity.
Defined.

(** ** The filter loop as a whole *)

Lemma filter_step_spec pd td th fs rep sample :
  filter_step pd td th (fs, rep) sample =
  (fs ++ option_list (passed_sample pd td th sample),
   Report.mk (Report.total rep)
     (Report.passed rep + length (option_list (passed_sample pd td th sample)))
     (Report.failed_duration rep
      + (if fails_duration pd td th sample then 1 else 0))
     (Report.failed_quality rep
      + (if fails_quality pd td th sample then 1 else 0))
     (Report.failed_both rep + (if fails_both pd td th sample then 1 else 0))
     (Report.reasons rep ++ option_list (failed_entry pd td th sample))).
Proof.
  rewrite filter_step_joined.
  unfold passed_sample, failed_entry, fails_both, fails_duration,
    fails_quality, has_transcription, duration_verdict, quality_verdict,
    record_verdict.
  destruct (joined pd td sample) as [p t]. cbn [fst snd].
  destruct rep as [tot pa fd fq fb rs].
  destruct (Dict.is_empty t); cbn [negb andb].
  - cbn [option_list length Report.total Report.passed Report.failed_duration
           Report.failed_quality Report.failed_both Report.reasons].
    rewrite !app_nil_r, !Nat.add_0_r. done.
  - destruct (filter_by_duration p _ _) as [[] dr];
      destruct (filter_by_transcription_quality t _ _) as [[] qr];
      cbn [fst snd negb andb option_list length app Report.total Report.passed
             Report.failed_duration Report.failed_quality Report.failed_both
             Report.reasons];
      rewrite ?app_nil_r, ?Nat.add_0_r; done.
Qed.

Lemma foldl_filter_step_spec pd td th samples : forall fs rep,
  foldl (filter_step pd td th) (fs, rep) samples =
  (fs ++ omap (passed_sample pd td th) samples,
   Report.mk (Report.total rep)
     (Report.passed rep + length (omap (passed_sample pd td th) samples))
     (Report.failed_duration rep
      + length (List.filter (fails_duration pd td th) samples))
     (Report.failed_quality rep
      + length (List.filter (fails_quality pd td th) samples))
     (Report.failed_both rep
      + length (List.filter (fails_both pd td th) samples))
     (Report.reasons rep ++ omap (failed_entry pd td th) samples)).
Proof.
  induction samples as [|s samples IH]; intros fs rep.
  - simpl. rewrite !app_nil_r, !Nat.add_0_r. by destruct rep.
  - cbn [foldl]. rewrite filter_step_spec, IH.
    cbn [Report.total Report.passed Report.failed_duration
           Report.failed_quality Report.failed_both Report.reasons
           omap list_omap List.filter].
    destruct (passed_sample pd td th s); destruct (failed_entry pd td th s);
      destruct (fails_duration pd td th s); destruct (fails_quality pd td th s);
      destruct (fails_both pd td th s);
      simpl; rewrite <- ?app_assoc; simpl;
      (f_equal; [.. | f_equal; first [lia | done]]; done).
Qed.

Lemma apply_filters_spec samples pre trs th pd td :
  preprocess_dict pre = Ok pd ->
  transcribe_dict trs = Ok td ->
  apply_filters samples pre trs th =
  Ok (omap (passed_sample pd td th) samples,
      Report.mk (length samples)
        (length (omap (passed_sample pd td th) samples))
        (length (List.filter (fails_duration pd td th) samples))
        (length (List.filter (fails_quality pd td th) samples))
        (length (List.filter (fails_both pd td th) samples))
        (omap (failed_entry pd td th) samples)).
Proof.
  intros Hpd Htd. unfold apply_filters. rewrite Hpd, Htd.
  cbn [mbind result_bind]. by rewrite foldl_filter_step_spec.
Qed.

Lemma omap_passed_names pd td th samples :
  map Sample.filename (omap (passed_sample pd td th) samples)
  = List.filter (passes pd td th) samples.
Proof.
  induction samples as [|s samples IH]; [done|].
  cbn [omap list_omap List.filter]. unfold passed_sample at 1, passes at 1.
  destruct (_ && _); simpl; by rewrite IH.
Qed.

Lemma omap_failed_names pd td th samples :
  map fst (omap (failed_entry pd td th) samples)
  = List.filter (fails pd td th) samples.
Proof.
  induction samples as [|s samples IH]; [done|].
  cbn [omap list_omap List.filter]. unfold failed_entry at 1, fails at 1.
  cbv zeta. destruct (_ && _); simpl; by rewrite IH.
Qed.

(** X6. When both lookup dictionaries build, [apply_filters] returns, in the
    order of the candidates and keeping repeated candidates, exactly the
    candidates that have a transcription record and pass both filters, each
    with the two records joined to it and the status ["passed"]; the
    itemized failures are, in the same order, exactly the candidates that
    have a transcription record and fail a filter. *)
Theorem filter_keeps_order samples pre trs th pd td :
  preprocess_dict pre = Ok pd ->
  transcribe_dict trs = Ok td ->
  exists filtered report,
    apply_filters samples pre trs th = Ok (filtered, report)
    /\ map Sample.filename filtered = List.filter (passes pd td th) samples
    /\ map fst (Report.reasons report) = List.filter (fails pd td th) samples
    /\ forall x, x ∈ filtered ->
         x = Sample.mk (Sample.filename x)
               (joined pd td (Sample.filename x)).1
               (joined pd td (Sample.filename x)).2 "passed".
Proof.
  intros Hpd Htd. eexists _, _.
  split; [by apply apply_filters_spec|]. cbn [Report.reasons].
  split; [apply omap_passed_names|]. split; [apply omap_failed_names|].
  intros x (s & _ & Hs)%list_elem_of_omap. unfold passed_sample in Hs.
  destruct (_ && _); [|done]. by injection Hs as <-.
Qed.

Lemma filter_keeps_order_witness :
  exists filtered report,
    apply_filters ["c.wav"; "a.wav"; "C.WAV"; "zz.wav"; "b.wav"]
      scenario_preprocess scenario_transcriptions default_thresholds
    = Ok (filtered, report)
    /\ map Sample.filename filtered = ["c.wav"; "C.WAV"]
    /\ map fst (Report.reasons report) = ["a.wav"; "b.wav"].
Proof.
  destruct (filter_keeps_order ["c.wav"; "a.wav"; "C.WAV"; "zz.wav"; "b.wav"]
              scenario_preprocess scenario_transcriptions default_thresholds
              _ _ eq_refl eq_refl)
    as (filtered & report & H & Hf & Hr & _).
  exists filtered, report. split; [done|]. split.
  - rewrite Hf. by vm_compute.
  - rewrite Hr. by vm_compute.
Defined.

(** X7. In the report of [apply_filters], [passed] is the number of
    candidates returned, [failed_duration] the number of candidates with a
    transcription record that fail the duration filter, whether or not they
    also fail the quality filter, [failed_quality] likewise for the quality
    filter, and [failed_both] the number that fail both. *)
Theorem report_counters samples pre trs th pd td :
  preprocess_dict pre = Ok pd ->
  transcribe_dict trs = Ok td ->
  exists filtered report,
    apply_filters samples pre trs th = Ok (filtered, report)
    /\ Report.passed report = length (List.filter (passes pd td th) samples)
    /\ Report.failed_duration report
       = length (List.filter (fails_duration pd td th) samples)
    /\ Report.failed_quality report
       = length (List.filter (fails_quality pd td th) samples)
    /\ Report.failed_both report
       = length (List.filter
                   (fun s => fails_duration pd td th s && fails_quality pd td th s)
                   samples).
Proof.
  intros Hpd Htd. eexists _, _.
  split; [by apply apply_filters_spec|].
  cbn [Report.passed Report.failed_duration Report.failed_quality
         Report.failed_both].
  split; [|done]. by rewrite <- omap_passed_names, length_map.
Qed.

Lemma report_counters_witness :
  exists filtered report,
    apply_filters ["lost.wav"; "lost.wav"] orphan_preprocess
      [ transcribe_ok "lost.wav" "processed_audio/lost.wav" " 12 34" "en"
          0.875 1 ]
      default_thresholds = Ok (filtered, report)
    /\ Report.failed_duration report = 2
    /\ Report.failed_quality report = 2
    /\ Report.failed_both report = 2.
Proof.
  destruct (report_counters ["lost.wav"; "lost.wav"] orphan_preprocess
              [ transcribe_ok "lost.wav" "processed_audio/lost.wav" " 12 34"
                  "en" 0.875 1 ]
              default_thresholds _ _ eq_refl eq_refl)
    as (filtered & report & H & _ & Hd & Hq & Hb).
  exists filtered, report. split; [done|].
  rewrite Hd, Hq, Hb. by vm_compute.
Defined.

Lemma failed_entry_reasons pd td th samples :
  sum_list (map (fun e => length e.2) (omap (failed_entry pd td th) samples))
  = length (List.filter (fails_duration pd td th) samples)
    + length (List.filter (fails_quality pd td th) samples).
Proof.
  induction samples as [|s samples IH]; [done|].
  cbn [omap list_omap List.filter].
  unfold failed_entry at 1, fails_duration at 1, fails_quality at 1. cbv zeta.
  destruct (has_transcription pd td s); [|by simpl].
  destruct (duration_verdict pd td th s) as [[] dr];
    destruct (quality_verdict pd td th s) as [[] qr];
    simpl in *; rewrite IH; lia.
Qed.

(** X8. Every itemized failure of [apply_filters] carries one or two
    reasons: the duration reason alone, the quality reason alone, or the
    duration reason followed by the quality reason, according to which
    filters the candidate fails; and the reasons of all entries together are
    as many as [failed_duration + failed_quality]. *)
Theorem itemized_reasons samples pre trs th pd td :
  preprocess_dict pre = Ok pd ->
  transcribe_dict trs = Ok td ->
  exists filtered report,
    apply_filters samples pre trs th = Ok (filtered, report)
    /\ (forall s rs, (s, rs) ∈ Report.reasons report ->
          let d := duration_verdict pd td th s in
          let q := quality_verdict pd td th s in
          (d.1 = false /\ q.1 = true /\ rs = [d.2])
          \/ (d.1 = true /\ q.1 = false /\ rs = [q.2])
          \/ (d.1 = false /\ q.1 = false /\ rs = [d.2; q.2]))
    /\ sum_list (map (fun e => length e.2) (Report.reasons report))
       = Report.failed_duration report + Report.failed_quality report.
Proof.
  intros Hpd Htd. eexists _, _.
  split; [by apply apply_filters_spec|].
  cbn [Report.reasons Report.failed_duration Report.failed_quality].
  split; [|apply failed_entry_reasons].
  intros s rs (s' & _ & Hs)%list_elem_of_omap.
  unfold failed_entry in Hs. cbv zeta in Hs.
  destruct (has_transcription pd td s'); [|done].
  destruct (duration_verdict pd td th s') as [[] dr] eqn:Hd;
    destruct (quality_verdict pd td th s') as [[] qr] eqn:Hq;
    simpl in Hs; [done|..]; injection Hs as <- <-; rewrite Hd, Hq; simpl; auto.
Qed.

Lemma itemized_reasons_witness :
  exists filtered report,
    apply_filters ["a.wav"; "b.wav"; "c.wav"] scenario_preprocess
      scenario_transcriptions default_thresholds = Ok (filtered, report)
    /\ sum_list (map (fun e => length e.2) (Report.reasons report))
       = Report.failed_duration report + Report.failed_quality report.
Proof.
  destruct (itemized_reasons ["a.wav"; "b.wav"; "c.wav"] scenario_preprocess
              scenario_transcriptions default_thresholds _ _ eq_refl eq_refl)
    as (filtered & report & H & _ & Hsum).
  exists filtered, report. split; [exact H | exact Hsum].
Defined.

(** ** Errors of the filter *)

Lemma preprocess_dict_raises rs : forall acc,
  (exists r, r ∈ rs /\ succeeded r = true /\ Dict.output_file r = None) ->
  preprocess_dict_from acc rs = Raise (KeyError "output_file").
Proof.
  induction rs as [|r rs IH]; intros acc (bad & Hin & Hs & Hf).
  - by apply elem_of_nil in Hin.
  - simpl. apply elem_of_cons in Hin as [<-|Hin].
    + unfold succeeded in Hs. by rewrite Hs, Hf.
    + destruct (default false (Dict.success r)); [|apply IH; eauto].
      destruct (Dict.output_file r); [|done]. simpl. apply IH. eauto.
Qed.

Lemma transcribe_dict_raises rs : forall acc,
  (exists r, r ∈ rs /\ Dict.filename r = None) ->
  transcribe_dict_from acc rs = Raise (KeyError "filename").
Proof.
  induction rs as [|r rs IH]; intros acc (bad & Hin & Hf).
  - by apply elem_of_nil in Hin.
  - simpl. apply elem_of_cons in Hin as [<-|Hin]; [by rewrite Hf|].
    destruct (Dict.filename r); [|done]. simpl. apply IH. eauto.
Qed.

(** X9. [apply_filters] raises [KeyError] exactly on a record without its
    file name: on a successful preprocessing record without ['output_file']
    it raises for that key, whatever the transcription records are; on a
    transcription record without ['filename'] it raises for that key when the
    preprocessing records are in order; otherwise it returns.  A failed
    preprocessing record needs no file name, and the candidates play no part
    in it. *)
Theorem apply_filters_errors samples pre trs th :
  ((exists r, r ∈ pre /\ succeeded r = true /\ Dict.output_file r = None) ->
   apply_filters samples pre trs th = Raise (KeyError "output_file"))
  /\ ((forall r, r ∈ pre -> succeeded r = true -> is_Some (Dict.output_file r)) ->
      ((exists r, r ∈ trs /\ Dict.filename r = None) ->
       apply_filters samples pre trs th = Raise (KeyError "filename"))
      /\ ((forall r, r ∈ trs -> is_Some (Dict.filename r)) ->
          exists out, apply_filters samples pre trs th = Ok out)).
Proof.
  unfold apply_filters, preprocess_dict, transcribe_dict. split.
  - intros Hbad. by rewrite (preprocess_dict_raises pre ∅ Hbad).
  - intros Hpre. destruct (preprocess_dict_builds pre ∅ Hpre) as [pd ->].
    cbn [mbind result_bind]. split.
    + intros Hbad. by rewrite (transcribe_dict_raises trs ∅ Hbad).
    + intros Htrs. destruct (transcribe_dict_builds trs ∅ Htrs) as [td ->].
      cbn [mbind result_bind]. eauto.
Qed.

Lemma apply_filters_errors_witness :
  apply_filters ["a.wav"] [preprocess_ok 12 10 16000 "processed_audio/a.wav"]
    [] default_thresholds = Raise (KeyError "output_file")
  /\ apply_filters ["a.wav"] [preprocess_failed "decode error"]
       [Dict.empty] default_thresholds = Raise (KeyError "filename")
  /\ exists out,
       apply_filters ["a.wav"] [preprocess_failed "decode error"]
         scenario_transcriptions default_thresholds = Ok out.
Proof.
  split; [|split].
  - apply (apply_filters_errors ["a.wav"]
             [preprocess_ok 12 10 16000 "processed_audio/a.wav"]
             [] default_thresholds).
    eexists. split; [by left|]. by split.
  - apply (apply_filters_errors ["a.wav"] [preprocess_failed "decode error"]
             [Dict.empty] default_thresholds).
    + intros r ->%list_elem_of_singleton. discriminate.
    + exists Dict.empty. split; [by left | done].
  - apply (apply_filters_errors ["a.wav"] [preprocess_failed "decode error"]
             scenario_transcriptions default_thresholds).
    + intros r ->%list_elem_of_singleton. discriminate.
    + intros r Hr. repeat (apply elem_of_cons in Hr as [->|Hr]; [by eexists|]).
      by apply elem_of_nil in Hr.
Defined.

(** ** What is returned *)

Lemma duration_pass_bounds sample min_duration max_duration :
  (filter_by_duration sample min_duration max_duration).1 = true ->
  (min_duration <= default 0%Q (Dict.final_duration sample))%Q
  /\ (default 0%Q (Dict.final_duration sample) <= max_duration)%Q.
Proof.
  unfold filter_by_duration.
  destruct (Qltb _ min_duration) eqn:H1; [discriminate|].
  destruct (Qltb max_duration _) eqn:H2; [discriminate|].
  intros _. split; by apply Qltb_ge.
Qed.

(** X10. Every sample that [apply_filters] returns is one of the candidates,
    has the status ["passed"], and meets every threshold on its own records:
    its final duration lies within the two bounds, its transcription
    succeeded with a text that is not blank and holds a letter of [a-zA-Z],
    its confidence is at least [min_confidence] and its word count at least
    [min_words]. *)
Theorem returned_samples_meet_thresholds samples pre trs th filtered report x :
  apply_filters samples pre trs th = Ok (filtered, report) ->
  x ∈ filtered ->
  Sample.filename x ∈ samples
  /\ Sample.status x = "passed"
  /\ (min_duration th
      <= default 0%Q (Dict.final_duration (Sample.preprocessing x)))%Q
  /\ (default 0%Q (Dict.final_duration (Sample.preprocessing x))
      <= max_duration th)%Q
  /\ succeeded (Sample.transcription x) = true
  /\ Str.strip (default EmptyString (Dict.text (Sample.transcription x)))
     <> EmptyString
  /\ Str.has_ascii_letter
       (Str.strip (default EmptyString (Dict.text (Sample.transcription x))))
     = true
  /\ (min_confidence th
      <= default 0%Q (Dict.confidence (Sample.transcription x)))%Q
  /\ (min_words th <= default 0%Z (Dict.word_count (Sample.transcription x)))%Z.
Proof.
  unfold apply_filters.
  destruct (preprocess_dict pre) as [pd|] eqn:Hpd; [|discriminate].
  destruct (transcribe_dict trs) as [td|] eqn:Htd; [|discriminate].
  cbn [mbind result_bind]. rewrite foldl_filter_step_spec.
  intros [= <- _] (s & Hin & Hs)%list_elem_of_omap.
  unfold passed_sample in Hs.
  destruct (has_transcription pd td s); [|done].
  destruct (duration_verdict pd td th s).1 eqn:Hd; [|done].
  destruct (quality_verdict pd td th s).1 eqn:Hq; [|done].
  injection Hs as <-. cbn [Sample.filename Sample.status Sample.preprocessing
                             Sample.transcription].
  destruct (duration_pass_bounds _ _ _ Hd) as [Hlo Hhi].
  destruct (quality_pass_guards _ _ _ Hq) as (Hsu & Ht & Hc & Hw & Ha).
  repeat split; try done.
  - by apply is_empty_false.
  - by apply Qltb_ge.
  - by apply Z.ltb_ge.
Qed.

Lemma returned_samples_meet_thresholds_witness :
  (2 <= default 0%Q (Dict.final_duration scenario_pc))%Q
  /\ (default 0%Q (Dict.final_duration scenario_pc) <= 300)%Q
  /\ (double_0_3 <= default 0%Q (Dict.confidence scenario_tc))%Q.
Proof.
  destruct (returned_samples_meet_thresholds
              ["a.wav"; "b.wav"; "c.wav"] scenario_preprocess
              scenario_transcriptions default_thresholds
              [Sample.mk "c.wav" scenario_pc scenario_tc "passed"]
              (Report.mk 3 1 1 1 0
                 [("a.wav", [LowConfidence double_0_1 double_0_3]);
                  ("b.wav", [TooLong 500 300])])
              (Sample.mk "c.wav" scenario_pc scenario_tc "passed"))
    as (_ & _ & Hlo & Hhi & _ & _ & _ & Hc & _).
  - by vm_compute.
  - by left.
  - split; [exact Hlo|]. split; [exact Hhi | exact Hc].
Defined.

(** X11. A candidate with a transcription record of passing quality and no
    entry in the preprocessing dictionary is returned when the duration
    bounds admit 0 (a [min_duration] that is not positive): it is joined to
    [{}], and its dataset record has an empty audio path, the duration 0, the
    sample rate 16000 and the trimmed duration [0 - 0]. *)
Theorem unpreprocessed_sample_can_pass samples pre trs th pd td sample t :
  preprocess_dict pre = Ok pd ->
  transcribe_dict trs = Ok td ->
  sample ∈ samples ->
  pd !! Str.lower sample = None ->
  td !! Str.lower sample = Some t ->
  (filter_by_transcription_quality t (min_confidence th) (min_words th)).1
  = true ->
  (min_duration th <= 0)%Q ->
  (0 <= max_duration th)%Q ->
  exists filtered report,
    apply_filters samples pre trs th = Ok (filtered, report)
    /\ Sample.mk sample Dict.empty t "passed" ∈ filtered
    /\ let row := dataset_record (Sample.mk sample Dict.empty t "passed") in
       Row.audio_path row = EmptyString
       /\ Row.duration_seconds row = 0%Q
       /\ Row.sample_rate row = 16000%Z
       /\ Row.trimmed_duration row = (0 - 0)%Q.
Proof.
  intros Hpd Htd Hin Hnone Hsome Hq Hmin Hmax. eexists _, _.
  split; [by apply apply_filters_spec|]. split; [|done].
  apply list_elem_of_omap. exists sample. split; [done|].
  unfold passed_sample, has_transcription, duration_verdict, quality_verdict,
    joined.
  rewrite Hnone, Hsome. cbn [default from_option id fst snd].
  rewrite (transcribe_dict_not_empty _ _ _ _ Htd Hsome), Hq.
  unfold filter_by_duration. cbn [Dict.final_duration Dict.empty default
                                    from_option id].
  apply Qltb_ge in Hmin, Hmax. by rewrite Hmin, Hmax.
Qed.

Lemma unpreprocessed_sample_can_pass_witness :
  exists filtered report,
    apply_filters ["lost.wav"] orphan_preprocess orphan_transcriptions
      {| min_duration := 0; max_duration := 300;
         min_confidence := double_0_3; min_words := 3 |}
    = Ok (filtered, report)
    /\ Sample.mk "lost.wav" Dict.empty
         (transcribe_ok "lost.wav" "processed_audio/lost.wav"
            " still here somehow" "en" 0.875 1) "passed" ∈ filtered.
Proof.
  destruct (unpreprocessed_sample_can_pass ["lost.wav"] orphan_preprocess
              orphan_transcriptions
              {| min_duration := 0; max_duration := 300;
                 min_confidence := double_0_3; min_words := 3 |}
              _ _ "lost.wav"
              (transcribe_ok "lost.wav" "processed_audio/lost.wav"
                 " still here somehow" "en" 0.875 1)
              eq_refl eq_refl)
    as (filtered & report & H & Hin & _).
  - by left.
  - reflexivity.
  - reflexivity.
  - reflexivity.
  - by vm_compute.
  - by vm_compute.
  - exists filtered, report. split; [exact H | exact Hin].
Defined.

(** ** Tokens *)

Lemma forall_ascii (P : ascii -> bool) :
  forallb P all_ascii = true -> forall c, P c = true.
Proof.
  intros H c. rewrite forallb_forall in H. apply H, all_ascii_complete.
Qed.

Lemma isspace_lower_char c : Str.isspace (Str.lower_char c) = Str.isspace c.
Proof.
  apply eqb_prop.
  apply (forall_ascii (fun c => Bool.eqb (Str.isspace (Str.lower_char c))
                                  (Str.isspace c))).
  by vm_compute.
Qed.

Lemma letter_not_space c : Str.is_ascii_letter c = true -> Str.isspace c = false.
Proof.
  intros H.
  pose proof (forall_ascii (fun c => implb (Str.is_ascii_letter c)
                                       (negb (Str.isspace c)))
                ltac:(by vm_compute) c) as Hc.
  cbv beta in Hc. rewrite H in Hc. simpl in Hc. by apply negb_true_iff.
Qed.

Lemma is_empty_append cur c :
  Str.is_empty (String.append cur (String c EmptyString)) = false.
Proof. by destruct cur. Qed.

Lemma split_from_lower_length s : forall cur1 cur2,
  Str.is_empty cur1 = Str.is_empty cur2 ->
  length (Str.split_from cur1 (Str.lower s)) = length (Str.split_from cur2 s).
Proof.
  induction s as [|c s IH]; intros cur1 cur2 He; simpl.
  - rewrite He. by destruct (Str.is_empty cur2).
  - rewrite isspace_lower_char. destruct (Str.isspace c).
    + rewrite He. destruct (Str.is_empty cur2); simpl; by rewrite (IH _ EmptyString).
    + apply IH. by rewrite !is_empty_append.
Qed.

Lemma split_from_not_nil s : forall cur,
  Str.is_empty cur = false \/ (exists c, In c (list_ascii_of_string s)
                                        /\ Str.isspace c = false) ->
  Str.split_from cur s <> [].
Proof.
  induction s as [|c s IH]; intros cur H; simpl.
  - destruct H as [->|(c & [] & _)]. done.
  - destruct (Str.isspace c) eqn:Hc.
    + destruct (Str.is_empty cur) eqn:He; [|done].
      apply IH. right. destruct H as [H|(d & [<-|Hd] & Hsp)];
        [discriminate | congruence | eauto].
    + apply IH. left. apply is_empty_append.
Qed.

Lemma lower_has_letter s :
  Str.has_ascii_letter s = true ->
  exists c, In c (list_ascii_of_string (Str.lower s)) /\ Str.isspace c = false.
Proof.
  induction s as [|a s IH]; simpl; [discriminate|].
  intros [Ha|Hs]%orb_true_iff.
  - exists (Str.lower_char a). split; [by left|].
    rewrite isspace_lower_char. by apply letter_not_space.
  - destruct (IH Hs) as (c & Hc & Hsp). exists c. split; [by right | done].
Qed.

Lemma rstrip_idempotent sp s : Str.rstrip sp (Str.rstrip sp s) = Str.rstrip sp s.
Proof.
  induction s as [|c s IH]; simpl; [done|].
  destruct (sp c && Str.is_empty (Str.rstrip sp s)) eqn:E; [done|].
  simpl. by rewrite IH, E.
Qed.

Lemma lstrip_idempotent sp s : Str.lstrip sp (Str.lstrip sp s) = Str.lstrip sp s.
Proof.
  induction s as [|c s IH]; simpl; [done|].
  destruct (sp c) eqn:E; [done|]. simpl. by rewrite E.
Qed.

Lemma rstrip_lstrip sp s :
  Str.rstrip sp s = s -> Str.rstrip sp (Str.lstrip sp s) = Str.lstrip sp s.
Proof.
  induction s as [|c s IH]; [done|]. intros H. simpl in H |- *.
  destruct (sp c) eqn:E; [|simpl; by rewrite E]. apply IH.
  simpl in H. destruct (Str.is_empty (Str.rstrip sp s)); [discriminate|].
  by injection H.
Qed.

Lemma strip_idempotent s : Str.strip (Str.strip s) = Str.strip s.
Proof.
  unfold Str.strip.
  rewrite (rstrip_lstrip _ _ (rstrip_idempotent Str.isspace s)).
  apply lstrip_idempotent.
Qed.

(** X12. In a success record of [transcribe_audio] the text is already
    stripped, and [word_count] is the number of tokens that the repetition
    check of the quality filter counts: the lower-casing done there does not
    change the number of tokens. *)
Theorem word_count_counts_tokens audio_file audio_path text language
    confidence segments :
  let r := transcribe_ok audio_file audio_path text language confidence
             segments in
  Str.strip (default EmptyString (Dict.text r)) = default EmptyString (Dict.text r)
  /\ default 0%Z (Dict.word_count r)
     = Z.of_nat
         (length (Str.split
                    (Str.lower (Str.strip (default EmptyString (Dict.text r)))))).
Proof.
  unfold transcribe_ok. cbn [Dict.text Dict.word_count default from_option id].
  rewrite strip_idempotent. split; [done|]. f_equal. unfold Str.split.
  symmetry. by apply split_from_lower_length.
Qed.

(** X13. Once the checks before the repetition check hold, the token list is
    never empty, so the quotient of the repetition check is never taken over
    zero tokens and the branch for an empty token list is not reached: the
    verdict is decided by the ratio test alone. *)
Theorem repetition_ratio_is_defined sample min_confidence min_words :
  earlier_checks_hold sample min_confidence min_words ->
  let words :=
    Str.split (Str.lower (Str.strip (default EmptyString (Dict.text sample)))) in
  let unique_ratio :=
    ratio (size (list_to_set words : gset string)) (length words) in
  words <> []
  /\ filter_by_transcription_quality sample min_confidence min_words
     = if Qltb unique_ratio (3 # 10) && (5 <? length words)%nat
       then (false, ExcessiveRepetition unique_ratio) else (true, QualityOK).
Proof.
  intros He words unique_ratio.
  assert (Hw : words <> []).
  { destruct He as (_ & _ & _ & _ & Ha). apply split_from_not_nil.
    right. by apply lower_has_letter. }
  split; [done|]. rewrite (quality_after_guards _ _ _ He). cbv zeta.
  fold words. fold unique_ratio.
  destruct words; [done|]. done.
Qed.

Lemma repetition_ratio_is_defined_witness :
  Str.split (Str.lower (Str.strip (default EmptyString (Dict.text scenario_tc))))
  <> [].
Proof.
  apply (repetition_ratio_is_defined scenario_tc double_0_3 3).
  repeat split; by vm_compute.
Defined.

(** X14. The quality filter passes a sample exactly when its transcription
    succeeded, its stripped text is not empty and holds a letter of [a-zA-Z],
    its confidence and word count reach their thresholds, and it is not the
    case that it has more than 5 tokens with a unique ratio below 0.3.  In
    particular a text of at most 5 tokens is never failed for repetition. *)
Theorem quality_pass_iff sample min_confidence min_words :
  let words :=
    Str.split (Str.lower (Str.strip (default EmptyString (Dict.text sample)))) in
  let unique_ratio :=
    ratio (size (list_to_set words : gset string)) (length words) in
  ((filter_by_transcription_quality sample min_confidence min_words).1 = true
   <-> earlier_checks_hold sample min_confidence min_words
       /\ ~ ((5 < length words)%nat /\ (unique_ratio < 3 # 10)%Q))
  /\ (earlier_checks_hold sample min_confidence min_words ->
      (length words <= 5)%nat ->
      filter_by_transcription_quality sample min_confidence min_words
      = (true, QualityOK)).
Proof.
  intros words unique_ratio.
  assert (Hafter : earlier_checks_hold sample min_confidence min_words ->
            filter_by_transcription_quality sample min_confidence min_words
            = if Qltb unique_ratio (3 # 10) && (5 <? length words)%nat
              then (false, ExcessiveRepetition unique_ratio)
              else (true, QualityOK)).
  { intros He. rewrite (quality_after_guards _ _ _ He). cbv zeta.
    fold words. fold unique_ratio.
    destruct (0 <? length words)%nat eqn:H0; [done|].
    apply Nat.ltb_ge in H0.
    assert (H5 : (5 <? length words)%nat = false) by (apply Nat.ltb_ge; lia).
    by rewrite H5, andb_false_r. }
  split; [split|].
  - intros Hp.
    assert (He : earlier_checks_hold sample min_confidence min_words).
    { destruct (quality_pass_guards _ _ _ Hp) as (Hs & Ht & Hc & Hw & Ha).
      repeat split; try done.
      - by apply is_empty_false.
      - by apply Qltb_ge.
      - by apply Z.ltb_ge. }
    split; [done|]. intros [H5 Hr]. rewrite (Hafter He) in Hp.
    apply Qltb_lt in Hr. apply Nat.ltb_lt in H5. by rewrite Hr, H5 in Hp.
  - intros [He Hn]. rewrite (Hafter He).
    destruct (Qltb unique_ratio (3 # 10)) eqn:Hr; [|done].
    destruct (5 <? length words)%nat eqn:H5; [|done].
    destruct Hn. split; [by apply Nat.ltb_lt | by apply Qltb_lt].
  - intros He Hlen. rewrite (Hafter He).
    assert (H5 : (5 <? length words)%nat = false) by (apply Nat.ltb_ge; lia).
    by rewrite H5, andb_false_r.
Qed.

Lemma quality_pass_iff_witness :
  filter_by_transcription_quality
    (transcribe_ok "n.wav" "n.wav" "no no no no no" "en" 0.875 1) double_0_3 3
  = (true, QualityOK).
Proof.
  apply (quality_pass_iff
           (transcribe_ok "n.wav" "n.wav" "no no no no no" "en" 0.875 1)
           double_0_3 3).
  - repeat split; by vm_compute.
  - by vm_compute.
Defined.

(** ** The dataset frame *)

Lemma insert_row_sorted r rows :
  Sorted by_sample_id rows -> Sorted by_sample_id (insert_row r rows).
Proof.
  induction rows as [|x rows IH]; intros Hs; simpl.
  - by repeat constructor.
  - destruct (String.leb (Row.sample_id r) (Row.sample_id x)) eqn:E.
    + constructor; [done|]. by constructor.
    + apply Sorted_inv in Hs as [Hs Hhd]. constructor; [by apply IH|].
      assert (Hxr : by_sample_id x r).
      { unfold by_sample_id.
        destruct (String.leb_total (Row.sample_id r) (Row.sample_id x));
          congruence. }
      destruct rows as [|y rows]; simpl; [by constructor|].
      destruct (String.leb (Row.sample_id r) (Row.sample_id y));
        constructor; [done|]. by apply HdRel_inv in Hhd.
Qed.

Lemma sort_values_sorted rows : Sorted by_sample_id (sort_values rows).
Proof.
  induction rows as [|r rows IH]; simpl; [constructor|].
  by apply insert_row_sorted.
Qed.

(** X15. The frame that [create_dataset_metadata] returns has one row for
    each filtered sample, repeated samples included, and its rows are in
    ascending order of [sample_id]. *)
Theorem dataset_is_sorted samples df :
  create_dataset_metadata samples = Ok df ->
  length df = length samples /\ Sorted by_sample_id df.
Proof.
  intros H. destruct (create_dataset_metadata_rows _ _ H) as [Hne Hp].
  split; [by rewrite Hp, length_map|].
  rewrite create_dataset_metadata_returns in H by done.
  injection H as <-. apply sort_values_sorted.
Qed.

Lemma dataset_is_sorted_witness :
  map Row.sample_id
    (sort_values
       (map dataset_record
          [Sample.mk "c.wav" scenario_pc scenario_tc "passed";
           Sample.mk "a.wav" scenario_pa scenario_ta "passed";
           Sample.mk "b.wav" scenario_pb scenario_tb "passed"]))
  = ["a"; "b"; "c"]
  /\ Sorted by_sample_id
       (sort_values
          (map dataset_record
             [Sample.mk "c.wav" scenario_pc scenario_tc "passed";
              Sample.mk "a.wav" scenario_pa scenario_ta "passed";
              Sample.mk "b.wav" scenario_pb scenario_tb "passed"])).
Proof.
  split; [reflexivity|].
  apply (dataset_is_sorted
           [Sample.mk "c.wav" scenario_pc scenario_tc "passed";
            Sample.mk "a.wav" scenario_pa scenario_ta "passed";
            Sample.mk "b.wav" scenario_pb scenario_tb "passed"]).
  reflexivity.
Defined.

(** ** The stages fit together *)

Lemma successful_preprocess_inv pre succ :
  successful_preprocess pre = Ok succ -> succ = List.filter succeeded pre.
Proof.
  revert succ. induction pre as [|r pre IH]; intros succ; simpl.
  - by intros [= <-].
  - unfold succeeded at 1. destruct (Dict.success r) as [b|]; simpl; [|done].
    destruct (successful_preprocess pre) as [rest|]; simpl; [|done].
    intros [= <-]. rewrite (IH rest eq_refl). by destruct b.
Qed.

Lemma successful_preprocess_returns pre :
  (forall r, r ∈ pre -> is_Some (Dict.success r)) ->
  successful_preprocess pre = Ok (List.filter succeeded pre).
Proof.
  induction pre as [|r pre IH]; intros H; simpl; [done|].
  destruct (H r) as [b Hb]; [by left|]. unfold succeeded at 1.
  rewrite Hb. simpl. rewrite IH by (intros r' Hr'; apply H; by right).
  simpl. by destruct b.
Qed.

Lemma processed_files_inv succ files :
  processed_files succ = Ok files -> map Dict.output_file succ = map Some files.
Proof.
  revert files. induction succ as [|r succ IH]; intros files; simpl.
  - by intros [= <-].
  - destruct (Dict.output_file r) as [f|]; simpl; [|done].
    destruct (processed_files succ) as [rest|]; simpl; [|done].
    intros [= <-]. simpl. by rewrite (IH rest eq_refl).
Qed.

Lemma processed_files_returns succ :
  (forall r, r ∈ succ -> is_Some (Dict.output_file r)) ->
  exists files, processed_files succ = Ok files.
Proof.
  induction succ as [|r succ IH]; intros H; simpl; [eauto|].
  destruct (H r) as [f ->]; [by left|]. simpl.
  destruct IH as [rest ->]; [intros r' Hr'; apply H; by right|].
  simpl. eauto.
Qed.

Lemma filter_succeeded_elem r pre :
  r ∈ List.filter succeeded pre <-> r ∈ pre /\ succeeded r = true.
Proof. rewrite !list_elem_of_In. apply filter_In. Qed.

Lemma filter_stage_returns pre trs th :
  (forall r, r ∈ pre -> is_Some (Dict.success r)) ->
  (forall r, r ∈ pre -> succeeded r = true -> is_Some (Dict.output_file r)) ->
  (forall r, r ∈ trs -> is_Some (Dict.filename r)) ->
  exists out, filter_stage pre trs th = Ok out.
Proof.
  intros Hs Ho Hf. unfold filter_stage.
  rewrite successful_preprocess_returns by done. cbn [mbind result_bind].
  destruct (processed_files_returns (List.filter succeeded pre)) as [files ->].
  { intros r [Hr Hsr]%filter_succeeded_elem. by apply Ho. }
  cbn [mbind result_bind]. unfold apply_filters, preprocess_dict, transcribe_dict.
  destruct (preprocess_dict_builds pre ∅ Ho) as [pd ->].
  destruct (transcribe_dict_builds trs ∅ Hf) as [td ->].
  cbn [mbind result_bind]. eauto.
Qed.

Lemma preprocess_audio_file_success dsp input_path output_path :
  is_Some (Dict.success (preprocess_audio_file dsp input_path output_path)).
Proof.
  unfold preprocess_audio_file.
  destruct (dsp input_path output_path) as [e|[[o f] sr]]; simpl; eauto.
Qed.

Lemma name_result_success audio_file r :
  Dict.success (name_result audio_file r) = Dict.success r.
Proof. by destruct r. Qed.

Lemma transcribe_batch_named float_sum recognize audio_files r :
  r ∈ transcribe_batch float_sum recognize audio_files ->
  is_Some (Dict.filename r).
Proof.
  unfold transcribe_batch. intros (f & -> & _)%list_elem_of_fmap.
  unfold name_transcription. destruct (transcribe_audio _ _ _). simpl. eauto.
Qed.

(** X16. On the lists that the two batch stages produce, whatever the signal
    processing and the recognizer do on each file, stage 3 of [run_pipeline]
    returns: every record carries the keys that are read with brackets
    (['success'], ['output_file'], ['filename']), so no [KeyError] is
    raised. *)
Theorem batch_outputs_never_raise dsp output_path float_sum recognize
    audio_files wav_files th :
  exists out,
    filter_stage
      (preprocess_audio_batch
         (fun f => preprocess_audio_file dsp f (output_path f)) audio_files)
      (transcribe_batch float_sum recognize wav_files) th
    = Ok out.
Proof.
  apply filter_stage_returns.
  - intros r Hr. unfold preprocess_audio_batch in Hr.
    apply list_elem_of_fmap in Hr as (f & -> & _).
    rewrite name_result_success. apply preprocess_audio_file_success.
  - intros r Hr _. by eapply preprocess_audio_batch_named.
  - intros r Hr. by eapply transcribe_batch_named.
Qed.

Lemma spec_latest_some key keep sample rs r :
  spec_latest key keep sample rs = Some r ->
  r ∈ rs /\ keep r = true
  /\ exists f, key r = Some f /\ differs_only_in_case f sample = true.
Proof.
  induction rs as [|x rs IH]; simpl; [done|].
  destruct (spec_latest key keep sample rs) as [later|].
  - intros [= <-]. destruct (IH eq_refl) as (Hin & Hrest). split; [by right|done].
  - destruct (key x) as [f|] eqn:Hk; [|done].
    destruct (keep x && differs_only_in_case f sample) eqn:E; [|done].
    intros [= <-]. apply andb_true_iff in E as [Hkeep Hd].
    split; [by left|]. split; [done|]. eauto.
Qed.

Lemma spec_latest_exists key keep sample rs r f :
  r ∈ rs -> keep r = true -> key r = Some f ->
  differs_only_in_case f sample = true ->
  is_Some (spec_latest key keep sample rs).
Proof.
  induction rs as [|x rs IH]; intros Hin Hkeep Hk Hd; simpl.
  - by apply elem_of_nil in Hin.
  - destruct (spec_latest key keep sample rs) as [later|] eqn:E; [eauto|].
    apply elem_of_cons in Hin as [<-|Hin].
    + rewrite Hk, Hkeep, Hd. simpl. eauto.
    + destruct (IH Hin Hkeep Hk Hd) as [? ?]. congruence.
Qed.

Lemma differs_only_in_case_refl s : differs_only_in_case s s = true.
Proof. by apply differs_only_in_case_lower. Qed.

(** X17. In stage 3 of [run_pipeline] the candidates are the output names of
    the successful preprocessing records, so every candidate has an entry in
    the preprocessing lookup: every sample that the stage returns, and every
    candidate it judges, is joined to a successful preprocessing record
    whose output name differs from the candidate at most in letter case,
    never to [{}]. *)
Theorem stage_candidates_are_preprocessed pre trs th filtered report :
  filter_stage pre trs th = Ok (filtered, report) ->
  exists files pd,
    processed_files (List.filter succeeded pre) = Ok files
    /\ preprocess_dict pre = Ok pd
    /\ (forall f, f ∈ files ->
          exists r g, pd !! Str.lower f = Some r
                      /\ r ∈ pre /\ succeeded r = true
                      /\ Dict.output_file r = Some g
                      /\ differs_only_in_case g f = true)
    /\ forall x, x ∈ filtered ->
         succeeded (Sample.preprocessing x) = true
         /\ exists g, Dict.output_file (Sample.preprocessing x) = Some g
                      /\ differs_only_in_case g (Sample.filename x) = true.
Proof.
  unfold filter_stage.
  destruct (successful_preprocess pre) as [succ|] eqn:Hsucc; [|done].
  apply successful_preprocess_inv in Hsucc as ->. cbn [mbind result_bind].
  destruct (processed_files _) as [files|] eqn:Hfiles; [|done].
  cbn [mbind result_bind]. unfold apply_filters.
  destruct (preprocess_dict pre) as [pd|] eqn:Hpd; [|done].
  destruct (transcribe_dict trs) as [td|] eqn:Htd; [|done].
  cbn [mbind result_bind]. rewrite foldl_filter_step_spec. intros [= <- _].
  exists files, pd. split; [done|]. split; [done|].
  assert (Hcand : forall f, f ∈ files ->
            exists r g, pd !! Str.lower f = Some r
                        /\ r ∈ pre /\ succeeded r = true
                        /\ Dict.output_file r = Some g
                        /\ differs_only_in_case g f = true).
  { intros f Hf.
    assert (Hsome : Some f ∈ map Dict.output_file (List.filter succeeded pre)).
    { rewrite (processed_files_inv _ _ Hfiles). by apply list_elem_of_fmap_2. }
    apply list_elem_of_fmap in Hsome as (r0 & Hr0 & [Hin0 Hs0]%filter_succeeded_elem).
    destruct (spec_latest_exists Dict.output_file succeeded f pre r0 f)
      as [r Hr]; [done | done | done | apply differs_only_in_case_refl |].
    destruct (spec_latest_some _ _ _ _ _ Hr) as (Hin & Hs & g & Hg & Hd).
    exists r, g. rewrite (preprocess_dict_from_lookup _ _ _ Hpd f), Hr. auto. }
  split; [done|].
  intros x (s & Hs & Hx)%list_elem_of_omap. unfold passed_sample in Hx.
  destruct (_ && _); [|done]. injection Hx as <-.
  cbn [Sample.preprocessing Sample.filename].
  destruct (Hcand s Hs) as (r & g & Hr & _ & Hsr & Hg & Hd).
  unfold joined. rewrite Hr. simpl. eauto.
Qed.

Lemma stage_candidates_are_preprocessed_witness :
  exists files pd,
    processed_files (List.filter succeeded talk_preprocess) = Ok files
    /\ preprocess_dict talk_preprocess = Ok pd
    /\ files = ["talk.wav"; "talk.wav"].
Proof.
  destruct (stage_candidates_are_preprocessed talk_preprocess
              talk_transcriptions default_thresholds talk_samples
              (Report.mk 2 2 0 0 0 []))
    as (files & pd & Hf & Hpd & _); [by vm_compute|].
  exists files, pd. split; [exact Hf|]. split; [exact Hpd|].
  vm_compute in Hf. by injection Hf as <-.
Defined.

(** ** The orchestrator *)

Lemma is_nil_true {A} (l : list A) : is_nil l = true <-> l = [].
Proof. by destruct l. Qed.

Lemma is_nil_false {A} (l : list A) : is_nil l = false <-> l <> [].
Proof. by destruct l. Qed.

Lemma apply_filters_passing samples pre trs th filtered report x :
  apply_filters samples pre trs th = Ok (filtered, report) ->
  x ∈ filtered ->
  Sample.filename x ∈ samples
  /\ (filter_by_duration (Sample.preprocessing x)
        (min_duration th) (max_duration th)).1 = true
  /\ (filter_by_transcription_quality (Sample.transcription x)
        (min_confidence th) (min_words th)).1 = true.
Proof.
  unfold apply_filters.
  destruct (preprocess_dict pre) as [pd|]; [|discriminate].
  destruct (transcribe_dict trs) as [td|]; [|discriminate].
  cbn [mbind result_bind]. rewrite foldl_filter_step_spec.
  intros [= <- _] (s & Hin & Hs)%list_elem_of_omap.
  unfold passed_sample in Hs.
  destruct (has_transcription pd td s); [|done].
  destruct (duration_verdict pd td th s).1 eqn:Hd; [|done].
  destruct (quality_verdict pd td th s).1 eqn:Hq; [|done].
  by injection Hs as <-.
Qed.

Lemma apply_filters_passed_length samples pre trs th filtered report :
  apply_filters samples pre trs th = Ok (filtered, report) ->
  Report.passed report = length filtered.
Proof.
  unfold apply_filters.
  destruct (preprocess_dict pre) as [pd|]; [|discriminate].
  destruct (transcribe_dict trs) as [td|]; [|discriminate].
  cbn [mbind result_bind]. rewrite foldl_filter_step_spec. by intros [= <- <-].
Qed.

(** What a completed run went through. *)
Lemma run_pipeline_some {P} (save_dataset : list Row.t -> Z -> result P)
    output_dir version pre trs th out :
  run_pipeline save_dataset output_dir version pre trs th = Ok (Some out) ->
  exists files filtered report,
    match version with
    | Some v => result_version out = v
    | None => get_next_version output_dir = Ok (result_version out)
    end
    /\ pre <> [] /\ trs <> []
    /\ processed_files (List.filter succeeded pre) = Ok files
    /\ apply_filters files pre trs th = Ok (filtered, report)
    /\ filtered <> []
    /\ create_dataset_metadata filtered = Ok (result_dataset out)
    /\ save_dataset (result_dataset out) (result_version out)
       = Ok (result_saved_paths out)
    /\ result_filtered_samples out = filtered
    /\ result_filter_report out = report.
Proof.
  unfold run_pipeline.
  destruct (match version with Some v => Ok v | None => _ end) as [ver|] eqn:Hv;
    [|done].
  cbn [mbind result_bind].
  destruct (is_nil pre) eqn:Hpre; [done|].
  destruct (successful_preprocess pre) as [succ|] eqn:Hsucc; [|done].
  apply successful_preprocess_inv in Hsucc as ->. cbn [mbind result_bind].
  destruct (is_nil (List.filter succeeded pre)) eqn:Hs; [done|].
  destruct (is_nil trs) eqn:Htrs; [done|].
  destruct (processed_files _) as [files|] eqn:Hfiles; [|done].
  cbn [mbind result_bind].
  destruct (transcription_names trs) as [available|]; [|done].
  cbn [mbind result_bind].
  destruct (apply_filters files pre trs th) as [[filtered report]|] eqn:Hf;
    [|done].
  cbn [mbind result_bind fst snd].
  destruct (is_nil filtered) eqn:Hnil; [done|].
  destruct (create_dataset_metadata filtered) as [df|] eqn:Hdf; [|done].
  cbn [mbind result_bind].
  destruct (save_dataset df ver) as [paths|] eqn:Hsave; [|done].
  cbn [mbind result_bind].
  destruct (transcribed_count trs) as [transcribed|]; [|done].
  cbn [mbind result_bind]. intros [= <-]. exists files, filtered, report.
  cbn [result_version result_dataset result_saved_paths
         result_filtered_samples result_filter_report].
  apply is_nil_false in Hpre, Htrs, Hnil.
  repeat split; try done. by destruct version; [injection Hv as -> |].
Qed.

Lemma transcription_names_returns rs :
  (forall r, r ∈ rs -> is_Some (Dict.filename r)) ->
  exists names, transcription_names rs = Ok names.
Proof.
  induction rs as [|r rs IH]; intros H; simpl; [eauto|].
  destruct (H r ltac:(by left)) as [f ->].
  destruct IH as [names ->]; [intros x Hx; apply H; by right|].
  simpl. eauto.
Qed.

(** X18. [run_pipeline] raises nothing when the version can be resolved (it
    is supplied, or the output root is not a regular file), every record
    carries the keys that are read with brackets (['success'] on every
    preprocessing and every transcription record, ['output_file'] on the
    successful preprocessing records, ['filename'] on every transcription
    record), and [save_dataset] writes every frame that has a row.  The
    frame is built only from a list of samples that is not empty, so the
    [KeyError] of an empty frame does not occur and [save_dataset] is never
    called with an empty frame. *)
Theorem run_pipeline_returns {P} (save_dataset : list Row.t -> Z -> result P)
    output_dir version pre trs th :
  (version = None -> output_dir <> RegularFile) ->
  (forall r, r ∈ pre -> is_Some (Dict.success r)) ->
  (forall r, r ∈ pre -> succeeded r = true -> is_Some (Dict.output_file r)) ->
  (forall r, r ∈ trs -> is_Some (Dict.filename r)) ->
  (forall r, r ∈ trs -> is_Some (Dict.success r)) ->
  (forall df v, df <> [] -> exists paths, save_dataset df v = Ok paths) ->
  exists out, run_pipeline save_dataset output_dir version pre trs th = Ok out.
Proof.
  intros Hver Hs Ho Hf Hts Hsave. unfold run_pipeline.
  assert (Hv : exists ver,
            match version with
            | Some v => Ok v
            | None => get_next_version output_dir
            end = Ok ver).
  { destruct version as [v|]; [eauto|].
    destruct output_dir as [| |items]; [eauto | by destruct Hver | ].
    rewrite get_next_version_next_of. eauto. }
  destruct Hv as [ver ->]. cbn [mbind result_bind].
  destruct (is_nil pre); [eauto|].
  rewrite successful_preprocess_returns by done. cbn [mbind result_bind].
  destruct (is_nil (List.filter succeeded pre)); [eauto|].
  destruct (is_nil trs); [eauto|].
  destruct (processed_files_returns (List.filter succeeded pre)) as [files ->].
  { intros r [Hr Hsr]%filter_succeeded_elem. by apply Ho. }
  cbn [mbind result_bind].
  destruct (transcription_names_returns trs Hf) as [available ->].
  cbn [mbind result_bind]. unfold apply_filters at 1, preprocess_dict, transcribe_dict.
  destruct (preprocess_dict_builds pre ∅ Ho) as [pd ->].
  destruct (transcribe_dict_builds trs ∅ Hf) as [td ->].
  cbn [mbind result_bind fst snd].
  destruct (foldl _ _ files) as [filtered report]. cbn [fst snd].
  destruct (is_nil filtered) eqn:Hnil; [eauto|].
  apply is_nil_false in Hnil.
  rewrite create_dataset_metadata_returns by done. cbn [mbind result_bind].
  destruct (Hsave (sort_values (map dataset_record filtered)) ver) as [paths ->].
  { intros E. apply Hnil. apply (f_equal length) in E.
    rewrite (Permutation_length (sort_values_perm _)), length_map in E.
    by destruct filtered. }
  cbn [mbind result_bind]. unfold transcribed_count.
  rewrite successful_preprocess_returns by done.
  cbn [mbind result_bind]. eauto.
Qed.

Lemma run_pipeline_returns_witness :
  exists out,
    run_pipeline (fun _ v => Ok (version_dir_name v)) (Directory version_dirs) None
      scenario_preprocess scenario_transcriptions default_thresholds = Ok out.
Proof.
  apply (run_pipeline_returns (fun _ v => Ok (version_dir_name v))).
  - discriminate.
  - intros r Hr. repeat (apply elem_of_cons in Hr as [->|Hr]; [by eexists|]).
    by apply elem_of_nil in Hr.
  - intros r Hr _. repeat (apply elem_of_cons in Hr as [->|Hr]; [by eexists|]).
    by apply elem_of_nil in Hr.
  - intros r Hr. repeat (apply elem_of_cons in Hr as [->|Hr]; [by eexists|]).
    by apply elem_of_nil in Hr.
  - intros r Hr. repeat (apply elem_of_cons in Hr as [->|Hr]; [by eexists|]).
    by apply elem_of_nil in Hr.
  - intros df v _. eauto.
Defined.

(** X19. When [run_pipeline] completes, the version of the result is the one
    supplied, or the value of [get_next_version] when none was; the dataset
    has one row per filtered sample, at least one, as many as the report
    counts as passed; and every row meets the thresholds of the run: its
    duration lies within the two bounds, its confidence is at least
    [min_confidence], its word count at least [min_words], and its
    [sample_id] is the stem of its file name. *)
Theorem run_pipeline_dataset {P} (save_dataset : list Row.t -> Z -> result P)
    output_dir version pre trs th out :
  run_pipeline save_dataset output_dir version pre trs th = Ok (Some out) ->
  match version with
  | Some v => result_version out = v
  | None => get_next_version output_dir = Ok (result_version out)
  end
  /\ (0 < length (result_dataset out))%nat
  /\ length (result_dataset out) = length (result_filtered_samples out)
  /\ length (result_dataset out) = Report.passed (result_filter_report out)
  /\ forall row, row ∈ result_dataset out ->
       (min_duration th <= Row.duration_seconds row)%Q
       /\ (Row.duration_seconds row <= max_duration th)%Q
       /\ (min_confidence th <= Row.confidence row)%Q
       /\ (min_words th <= Row.word_count row)%Z
       /\ Row.sample_id row = Str.stem (Row.filename row).
Proof.
  intros H. destruct (run_pipeline_some _ _ _ _ _ _ _ H)
    as (files & filtered & report & Hv & _ & _ & _ & Hf & Hne & Hdf & _ & -> & ->).
  destruct (create_dataset_metadata_rows _ _ Hdf) as [_ Hp].
  assert (Hlen : length (result_dataset out) = length filtered)
    by (by rewrite Hp, length_map).
  split; [done|]. split; [rewrite Hlen; destruct filtered; simpl; [done | lia]|].
  split; [done|].
  split; [by rewrite (apply_filters_passed_length _ _ _ _ _ _ Hf)|].
  intros row Hrow. rewrite Hp in Hrow.
  apply list_elem_of_fmap in Hrow as (x & -> & Hx).
  destruct (apply_filters_passing _ _ _ _ _ _ _ Hf Hx) as (_ & Hd & Hq).
  destruct (duration_pass_bounds _ _ _ Hd) as [Hlo Hhi].
  destruct (quality_pass_guards _ _ _ Hq) as (_ & _ & Hc & Hw & _).
  cbn [dataset_record Row.duration_seconds Row.confidence Row.word_count
         Row.sample_id Row.filename].
  repeat split; try done.
  - by apply Qltb_ge.
  - by apply Z.ltb_ge.
Qed.

Lemma run_pipeline_dataset_witness :
  exists out,
    run_pipeline (fun _ v => Ok (version_dir_name v)) (Directory version_dirs)
      None scenario_preprocess scenario_transcriptions default_thresholds
    = Ok (Some out)
    /\ get_next_version (Directory version_dirs) = Ok (result_version out)
    /\ length (result_dataset out) = Report.passed (result_filter_report out).
Proof.
  destruct (run_pipeline (fun _ v => Ok (version_dir_name v))
              (Directory version_dirs) None scenario_preprocess
              scenario_transcriptions default_thresholds)
    as [[out|]|] eqn:H; [|vm_compute in H; discriminate..].
  destruct (run_pipeline_dataset _ _ _ _ _ _ _ H) as (Hv & _ & _ & Hlen & _).
  exists out. split; [reflexivity|]. split; [exact Hv | exact Hlen].
Defined.

(** ** Confidence *)

Lemma sequential_sum_bounds l : forall acc k,
  (0 <= k)%Z -> (k + Z.of_nat (length l) < 2 ^ 53)%Z ->
  (0 <= acc)%Q -> (acc <= inject_Z k)%Q ->
  Forall (fun p => 0 <= p /\ p <= 1)%Q l ->
  (0 <= foldl float_add acc l)%Q
  /\ (foldl float_add acc l <= inject_Z (k + Z.of_nat (length l)))%Q.
Proof.
  induction l as [|p l IH]; intros acc k Hk Hlen Hlo Hhi Hl.
  - simpl. by rewrite Z.add_0_r.
  - apply Forall_cons in Hl as [[Hp0 Hp1] Hl]. cbn [foldl length] in *.
    rewrite Nat2Z.inj_succ in *.
    replace (k + Z.succ (Z.of_nat (length l)))%Z
      with ((k + 1) + Z.of_nat (length l))%Z by lia.
    apply IH; [lia | lia | | | done].
    + apply round64_nonneg. lra.
    + apply round64_le_int; [lia|].
      rewrite inject_Z_plus. change (inject_Z 1) with 1%Q. lra.
Qed.

(** X20. The confidence that [transcribe_audio] stores is 0.5 when the
    recognizer reports no segment.  Otherwise it is [1.0 - total / n] in
    float arithmetic, for the value [total] that [sum] gives on the [n]
    probabilities (an absent one counts as 0), and it lies in [0,1] whenever
    [total] lies between 0 and [n].  The left-to-right float sum of fewer
    than [2^53] probabilities, each in [0,1], is such a value. *)
Theorem confidence_in_unit_interval float_sum recognize audio_path result :
  recognize audio_path = inr result ->
  let segments := default [] (whisper_segments result) in
  let probs := map (default 0%Q) segments in
  let n := inject_Z (Z.of_nat (length segments)) in
  let confidence :=
    default 0%Q
      (Dict.confidence (transcribe_audio float_sum recognize audio_path)) in
  (segments = [] -> confidence = 0.5%Q)
  /\ (segments <> [] ->
      confidence = float_sub 1 (float_div (float_sum probs) n))
  /\ (segments <> [] -> (0 <= float_sum probs)%Q -> (float_sum probs <= n)%Q ->
      (0 <= confidence)%Q /\ (confidence <= 1)%Q)
  /\ (Forall (fun p => 0 <= p /\ p <= 1)%Q probs ->
      (Z.of_nat (length segments) < 2 ^ 53)%Z ->
      (0 <= sequential_sum probs)%Q /\ (sequential_sum probs <= n)%Q).
Proof.
  intros Hr. cbv zeta. unfold transcribe_audio. rewrite Hr. cbv zeta.
  cbn [Dict.confidence].
  generalize (default [] (whisper_segments result)). intros segments.
  set (probs := map (default 0%Q) segments).
  set (n := inject_Z (Z.of_nat (length segments))).
  assert (Hsum : Forall (fun p => 0 <= p /\ p <= 1)%Q probs ->
                 (Z.of_nat (length segments) < 2 ^ 53)%Z ->
                 (0 <= sequential_sum probs)%Q /\ (sequential_sum probs <= n)%Q).
  { intros Hall Hlen.
    destruct (sequential_sum_bounds probs 0%Q 0%Z) as [Hlo Hhi]; try done.
    - unfold probs. by rewrite length_map.
    - unfold probs in Hhi. rewrite length_map in Hhi. by split. }
  destruct segments as [|p ps].
  - repeat split; try done; apply Hsum; done.
  - cbn [default from_option id].
    split; [done|]. split; [done|]. split; [|done].
    intros _ H0 H1.
    assert (Hn : (0 < n)%Q).
    { unfold n, Qlt. simpl. lia. }
    assert (Hq0 : (0 <= float_sum probs / n)%Q)
      by (apply Qle_shift_div_l; [done | lra]).
    assert (Hq1 : (float_sum probs / n <= 1)%Q)
      by (apply Qle_shift_div_r; [done | lra]).
    destruct (round64_unit_interval _ Hq0 Hq1) as [Ha0 Ha1].
    unfold float_sub, float_div. apply round64_unit_interval; lra.
Qed.

Lemma confidence_in_unit_interval_witness :
  let recognize := fun _ : string =>
    inr {| whisper_text := " three quiet segments ";
           whisper_language := Some "en";
           whisper_segments :=
             Some [Some double_0_1; Some double_0_1; Some double_0_1] |} in
  let confidence :=
    default 0%Q
      (Dict.confidence (transcribe_audio sequential_sum recognize "s.wav")) in
  (0 <= confidence)%Q /\ (confidence <= 1)%Q
  /\ (confidence == 8106479329266893 # 9007199254740992)%Q.
Proof.
  intros recognize confidence.
  destruct (confidence_in_unit_interval sequential_sum recognize "s.wav"
              {| whisper_text := " three quiet segments ";
                 whisper_language := Some "en";
                 whisper_segments :=
                   Some [Some double_0_1; Some double_0_1; Some double_0_1] |}
              eq_refl)
    as (_ & _ & Hunit & Hsum).
  destruct Hsum as [Hlo Hhi].
  { repeat constructor; by vm_compute. }
  { by vm_compute. }
  destruct (Hunit ltac:(discriminate) Hlo Hhi) as [H0 H1].
  split; [exact H0|]. split; [exact H1 | by vm_compute].
Defined.
